(** * add_missing_files.py: the project-manifest patcher

    A shallow embedding of [add_files_to_xcode_project] from
    [add_missing_files.py] and the properties of it that the specification
    states.  Python text is a list of Unicode code points and a file a
    list of bytes; the random source, the file system and standard
    output are threaded through the run as an explicit world.

    The host is the one the hard-coded path belongs to: a POSIX system
    whose locale encoding is UTF-8 and whose line separator is the
    newline.  Of the operating system the model keeps what decides the
    outcome of the script's three file operations: which paths are
    files or directories, what the process may read, write, create and
    re-mode, how much the device takes, and which paths name the same
    file.  Standard output takes every line printed. *)

From Stdlib Require Import NArith Ascii String List Lia.
From stdpp Require Import base list gmap.

Local Open Scope N_scope.

(** ** Text *)

(** A Python [str] is a sequence of code points. *)
Abbreviation str := (list N).

Definition TAB : N := 9.
Definition NL : N := 10.
Definition DQUOTE : N := 34.
Definition HYPHEN : N := 45.

(** A source literal, character by character; the escapes [\n] and [\t]
    stand for the newline and the tab, as in the Python source. *)
Fixpoint unescape (l : list ascii) : list N :=
  match l with
  | [] => []
  | a :: l' =>
      match a, l' with
      | "\"%char, b :: l'' =>
          if Ascii.eqb b "n" then NL :: unescape l''
          else if Ascii.eqb b "t" then TAB :: unescape l''
          else N_of_ascii a :: unescape l'
      | _, _ => N_of_ascii a :: unescape l'
      end
  end.

Definition lit (s : string) : list N := unescape (list_ascii_of_string s).

Module Str.

(** [s.startswith(p)] *)
Fixpoint startswith (p s : str) : bool :=
  match p, s with
  | [], _ => true
  | _ :: _, [] => false
  | a :: p', b :: s' => (a =? b) && startswith p' s'
  end.

(** The scan of [str.replace] for a non-empty [old]: left to right, each
    occurrence found is replaced and the scan resumes after it.  [skip]
    counts the characters of the occurrence still to be passed over. *)
Fixpoint replace_scan (old new s : str) (skip : nat) : str :=
  match s with
  | [] => []
  | c :: s' =>
      match skip with
      | S k => replace_scan old new s' k
      | O =>
          if startswith old s
          then new ++ replace_scan old new s' (length old - 1)
          else c :: replace_scan old new s' 0
      end
  end.

(** [s.replace(old, new)].  With an empty [old], Python puts [new] before
    every character and at the end. *)
Definition replace (s old new : str) : str :=
  match old with
  | [] => new ++ flat_map (fun c => c :: new) s
  | _ :: _ => replace_scan old new s 0
  end.

(** [c.isspace()]: the code points Python's [str] treats as whitespace. *)
Definition isspace (c : N) : bool :=
  ((9 <=? c) && (c <=? 13)) || ((28 <=? c) && (c <=? 32))
  || (c =? 133) || (c =? 160) || (c =? 5760)
  || ((8192 <=? c) && (c <=? 8202))
  || (c =? 8232) || (c =? 8233) || (c =? 8239) || (c =? 8287)
  || (c =? 12288).

(** [s.rstrip()] *)
Fixpoint rstrip (s : str) : str :=
  match s with
  | [] => []
  | c :: s' =>
      match rstrip s' with
      | [] => if isspace c then [] else [c]
      | r => c :: r
      end
  end.

(** [s.upper()] on the ASCII letters, which is all the identifiers hold. *)
Definition upper_char (c : N) : N :=
  if (97 <=? c) && (c <=? 122) then c - 32 else c.

Definition upper (s : str) : str := map upper_char s.

End Str.

(** ** Identifiers: [str(uuid.uuid4()).replace('-', '').upper()[:24]] *)

Module Uuid.

(** [uuid.UUID(bytes=..., version=4).int], for [r] the big-endian value of
    the sixteen random bytes: the variant and version bits are forced. *)
Definition uuid4 (r : N) : N :=
  let i := N.ldiff r (N.shiftl 0xc000 48) in
  let i := N.lor i (N.shiftl 0x8000 48) in
  let i := N.ldiff i (N.shiftl 0xf000 64) in
  N.lor i (N.shiftl 4 76).

Definition hex_digit (d : N) : N :=
  if d <? 10 then 48 + d else 87 + d.

(** The [k]-th hexadecimal digit of [n], counted from the least one. *)
Definition nibble (n : N) (k : nat) : N :=
  N.land (N.shiftr n (4 * N.of_nat k)) 15.

(** ['%032x' % n]: lowercase hexadecimal, zero-padded to 32 digits. *)
Definition hex_width (n : N) : nat :=
  Nat.max 32 (S (N.to_nat (N.log2 n / 4))).

Definition format_032x (n : N) : str :=
  map (fun k => hex_digit (nibble n k)) (reverse (seq 0 (hex_width n))).

(** [UUID.__str__]: the digits grouped 8-4-4-4-12. *)
Definition to_str (u : N) : str :=
  let hex := format_032x u in
  take 8 hex ++ [HYPHEN] ++ take 4 (drop 8 hex) ++ [HYPHEN]
  ++ take 4 (drop 12 hex) ++ [HYPHEN] ++ take 4 (drop 16 hex) ++ [HYPHEN]
  ++ drop 20 hex.

(** [str(u).replace('-', '').upper()[:24]] for a UUID of value [u]. *)
Definition id_of_uuid (u : N) : str :=
  take 24 (Str.upper (Str.replace (to_str u) [HYPHEN] [])).

(** The identifier minted from one random draw. *)
Definition new_id (r : N) : str := id_of_uuid (uuid4 r).

End Uuid.

(** ** Regular expressions: the fragment of [re] the patterns use *)

Module Re.

(** Literal text, a repeated character set ([set{min,}], greedy or lazy),
    concatenation, and the capture group (the patterns have one). *)
Inductive re :=
| Chars (l : str)
| Rep (set : N -> bool) (min : nat) (greedy : bool)
| Cat (r1 r2 : re)
| Group (r : re).

(** The backtracking matcher, in continuation-passing style: [k] is what
    is left of the pattern, applied to what is left of the text. *)
Section Repeat.
Context {R : Type} (set : N -> bool) (k : str -> option R).

(** Greedy: the longest run first, giving characters back one by one. *)
Fixpoint star_greedy (s : str) : option R :=
  match s with
  | c :: s' =>
      if set c
      then match star_greedy s' with Some r => Some r | None => k s end
      else k s
  | [] => k s
  end.

(** Lazy: the shortest run first, taking characters one by one. *)
Fixpoint star_lazy (s : str) : option R :=
  match k s with
  | Some r => Some r
  | None =>
      match s with
      | c :: s' => if set c then star_lazy s' else None
      | [] => None
      end
  end.

Fixpoint at_least (min : nat) (rest : str -> option R) (s : str)
  : option R :=
  match min with
  | O => rest s
  | S m =>
      match s with
      | c :: s' => if set c then at_least m rest s' else None
      | [] => None
      end
  end.
End Repeat.

(** The state of a match in progress: the text left and group 1. *)
Definition cont (R : Type) := str -> option str -> option R.

Fixpoint run {R} (r : re) (s : str) (g : option str) (k : cont R)
  : option R :=
  match r with
  | Chars l => if Str.startswith l s then k (drop (length l) s) g else None
  | Rep set min greedy =>
      at_least set min
        (if greedy then star_greedy set (fun s' => k s' g)
         else star_lazy set (fun s' => k s' g)) s
  | Cat r1 r2 => run r1 s g (fun s' g' => run r2 s' g' k)
  | Group r1 =>
      run r1 s g (fun s' _ => k s' (Some (take (length s - length s') s)))
  end.

(** A match object: where the match starts and ends, and [group(1)]. *)
Record match_object := Match {
  m_start : nat;
  m_end : nat;
  m_group1 : option str
}.

(** [re.match] at offset [pos] of the subject, [s] being the text from
    [pos] on. *)
Definition match_at (r : re) (pos : nat) (s : str) : option match_object :=
  run r s None
    (fun s' g => Some (Match pos (pos + (length s - length s')) g)).

(** [re.search]: the match at the leftmost offset that has one. *)
Fixpoint search_from (r : re) (pos : nat) (s : str) : option match_object :=
  match match_at r pos s with
  | Some m => Some m
  | None =>
      match s with
      | [] => None
      | _ :: s' => search_from r (S pos) s'
      end
  end.

Definition search (r : re) (s : str) : option match_object :=
  search_from r 0 s.

(** [.] under [re.DOTALL], and the negated one-character sets. *)
Definition any (c : N) : bool := true.
Definition not_char (x : N) (c : N) : bool := negb (c =? x).

End Re.

(** ** Text files: UTF-8 and universal newlines *)

(** The script opens its files in text mode without naming an encoding
    or a newline convention.  The encoding is then the locale's, UTF-8
    on the macOS host that the hard-coded path belongs to, and the line
    separator written is the newline. *)
Module Utf8.

Definition cont (b : N) : bool := (0x80 <=? b) && (b <=? 0xBF).

(** The second byte of a three- or four-byte sequence is further
    restricted after [E0], [ED], [F0] and [F4]: no overlong form, no
    surrogate, nothing beyond [U+10FFFF]. *)
Definition second3 (b0 b1 : N) : bool :=
  (if b0 =? 0xE0 then 0xA0 <=? b1 else true)
  && (if b0 =? 0xED then b1 <=? 0x9F else true).

Definition second4 (b0 b1 : N) : bool :=
  (if b0 =? 0xF0 then 0x90 <=? b1 else true)
  && (if b0 =? 0xF4 then b1 <=? 0x8F else true).

(** The first character of a byte sequence, and the bytes after it. *)
Definition decode_char (bs : list N) : option (N * list N) :=
  match bs with
  | [] => None
  | b0 :: r =>
      if b0 <? 0x80 then Some (b0, r)
      else if b0 <? 0xC2 then None
      else if b0 <? 0xE0 then
        match r with
        | b1 :: r =>
            if cont b1 then Some ((b0 - 0xC0) * 64 + (b1 - 0x80), r)
            else None
        | _ => None
        end
      else if b0 <? 0xF0 then
        match r with
        | b1 :: b2 :: r =>
            if cont b1 && cont b2 && second3 b0 b1
            then Some (((b0 - 0xE0) * 64 + (b1 - 0x80)) * 64 + (b2 - 0x80), r)
            else None
        | _ => None
        end
      else if b0 <? 0xF5 then
        match r with
        | b1 :: b2 :: b3 :: r =>
            if cont b1 && cont b2 && cont b3 && second4 b0 b1
            then Some ((((b0 - 0xF0) * 64 + (b1 - 0x80)) * 64 + (b2 - 0x80)) * 64
                       + (b3 - 0x80), r)
            else None
        | _ => None
        end
      else None
  end.

Fixpoint decode_from (fuel : nat) (bs : list N) : option str :=
  match bs with
  | [] => Some []
  | _ :: _ =>
      match fuel with
      | O => None
      | S n =>
          match decode_char bs with
          | Some (c, r) =>
              match decode_from n r with
              | Some s => Some (c :: s)
              | None => None
              end
          | None => None
          end
      end
  end.

(** [bytes.decode('utf-8')], strict: [None] stands for
    [UnicodeDecodeError]. *)
Definition decode (bs : list N) : option str := decode_from (length bs) bs.

Definition encode_char (c : N) : option (list N) :=
  if c <? 0x80 then Some [c]
  else if c <? 0x800 then Some [0xC0 + c / 64; 0x80 + c mod 64]
  else if (0xD800 <=? c) && (c <=? 0xDFFF) then None
  else if c <? 0x10000
  then Some [0xE0 + c / 4096; 0x80 + (c / 64) mod 64; 0x80 + c mod 64]
  else if c <? 0x110000
  then Some [0xF0 + c / 262144; 0x80 + (c / 4096) mod 64;
             0x80 + (c / 64) mod 64; 0x80 + c mod 64]
  else None.

(** [s.encode('utf-8')], strict: [None] stands for [UnicodeEncodeError],
    which a surrogate raises. *)
Fixpoint encode (s : str) : option (list N) :=
  match s with
  | [] => Some []
  | c :: s' =>
      match encode_char c, encode s' with
      | Some b, Some bs => Some (b ++ bs)
      | _, _ => None
      end
  end.

End Utf8.

(** What reading in text mode does to the line endings (the [newline]
    argument of [open] left at [None]): a carriage return with the line
    feed after it, or one on its own, is read as one newline. *)
Fixpoint universal_newlines (s : str) : str :=
  match s with
  | [] => []
  | c :: s' =>
      if c =? 13
      then NL :: match s' with
                 | d :: s'' =>
                     if d =? 10 then universal_newlines s''
                     else universal_newlines s'
                 | [] => []
                 end
      else c :: universal_newlines s'
  end.

(** [os.path.basename] and [os.path.join] for a relative second part, on
    a POSIX host. *)
Fixpoint basename (p : str) : str :=
  match p with
  | [] => []
  | c :: p' =>
      if existsb (N.eqb 47) p' then basename p'
      else if c =? 47 then p' else p
  end.

Definition path_join (a b : str) : str :=
  match b with
  | 47 :: _ => b
  | _ =>
      match last a with
      | None => b
      | Some c => if c =? 47 then a ++ b else a ++ [47] ++ b
      end
  end.

(** ** Exceptions, and the world the script runs in *)

(** The exceptions met.  [OSError] stands for the refusals of the
    operating system that have no class of their own (no room left on
    the device, a file too large); [SameFileError] is [shutil]'s. *)
Inductive exn :=
| FileNotFoundError
| IsADirectoryError
| PermissionError
| SameFileError
| UnicodeDecodeError
| UnicodeEncodeError
| OSError
| KeyError
| AttributeError
| TypeError.

Inductive result (A : Type) :=
| Ok (a : A)
| Raise (e : exn).
Arguments Ok {A} a.
Arguments Raise {A} e.

#[global] Instance result_ret : MRet result := @Ok.
#[global] Instance result_bind : MBind result := fun A B f m =>
  match m with
  | Ok a => f a
  | Raise e => Raise e
  end.

(** What the permission bits of a file let the process do with it.  The
    manifest and its backup are taken to have one owner, so that the
    same bits let the process do the same with either. *)
Record perms := Perms { can_read : bool; can_write : bool }.

(** What the operating system decides: the permissions of each path (of
    the file there or, where there is none, of the file the process
    would create there), which paths are directories, where the process
    may create a file, where it may set the permission bits of the file
    (the file is its own, on a file system that keeps such bits), how
    many bytes the device has room for in a file ([None]: no limit), and
    which paths name one and the same file, links followed. *)
Record host := Host {
  perm : list N -> perms;
  is_dir : list N -> bool;
  creatable : list N -> bool;
  may_chmod : list N -> bool;
  room : list N -> option nat;
  same_file : list N -> list N -> bool
}.

(** [os.chmod(path, mode)] *)
Definition chmod (path : list N) (mode : perms) (h : host) : host :=
  Host (fun q => if bool_decide (q = path) then mode else perm h q)
       (is_dir h) (creatable h) (may_chmod h) (room h) (same_file h).

(** The regular files (path to bytes), the host, the outcomes of the
    successive [os.urandom(16)] calls with the number of them consumed so
    far, and the lines printed. *)
Record world := World {
  files : gmap (list N) (list N);
  os : host;
  entropy : nat -> N;
  draws : nat;
  stdout : list (list N)
}.

Definition M (A : Type) := world -> result A * world.

#[global] Instance M_ret : MRet M := fun A a w => (Ok a, w).
#[global] Instance M_bind : MBind M := fun A B f m w =>
  match m w with
  | (Ok a, w') => f a w'
  | (Raise e, w') => (Raise e, w')
  end.

Definition lift {A} (r : result A) : M A := fun w => (r, w).

(** [for x in l: acc = body(acc, x)] *)
Fixpoint for_in `{MBind T, MRet T} {A S}
    (l : list A) (body : S -> A -> T S) (acc : S) : T S :=
  match l with
  | [] => mret acc
  | x :: l' => acc' ← body acc x; for_in l' body acc'
  end.

(** Opening [path] for reading, and reading all its bytes. *)
Definition read_bytes (path : list N) : M (list N) := fun w =>
  if is_dir (os w) path
  then (Raise (if can_read (perm (os w) path)
               then IsADirectoryError else PermissionError), w)
  else match files w !! path with
       | None => (Raise FileNotFoundError, w)
       | Some data =>
           if can_read (perm (os w) path) then (Ok data, w)
           else (Raise PermissionError, w)
       end.

(** Opening [path] for writing: the file is created, or emptied. *)
Definition truncate (path : list N) : M unit := fun w =>
  if is_dir (os w) path then (Raise IsADirectoryError, w)
  else if match files w !! path with
          | Some _ => can_write (perm (os w) path)
          | None => creatable (os w) path
          end
       then (Ok tt, World (<[path := []]> (files w)) (os w) (entropy w)
                          (draws w) (stdout w))
       else (Raise PermissionError, w).

(** Writing [data] to the file opened at [path], and closing it: where
    the device has no room for all of it, what fits is written and the
    write fails. *)
Definition write_bytes (path data : list N) : M unit := fun w =>
  match room (os w) path with
  | Some n =>
      if (n <? length data)%nat
      then (Raise OSError,
            World (<[path := take n data]> (files w)) (os w) (entropy w)
                  (draws w) (stdout w))
      else (Ok tt, World (<[path := data]> (files w)) (os w) (entropy w)
                         (draws w) (stdout w))
  | None => (Ok tt, World (<[path := data]> (files w)) (os w) (entropy w)
                          (draws w) (stdout w))
  end.

(** [with open(path, 'r') as f: f.read()] *)
Definition open_read (path : str) : M str :=
  data ← read_bytes path;
  match Utf8.decode data with
  | Some text => mret (universal_newlines text)
  | None => lift (Raise UnicodeDecodeError)
  end.

(** [with open(path, 'w') as f: f.write(text)]: the file is emptied when
    it is opened, before anything is encoded or written. *)
Definition open_write (path text : str) : M unit :=
  truncate path;;
  match Utf8.encode text with
  | Some data => write_bytes path data
  | None => lift (Raise UnicodeEncodeError)
  end.

(** [os.path.isdir(path)] *)
Definition isdir (path : str) : M bool := fun w => (Ok (is_dir (os w) path), w).

(** [shutil.copyfile(src, dst)]: refused when the two paths name one
    file; otherwise [src] is opened for reading, [dst] for writing, and
    the bytes are copied. *)
Definition copyfile (src dst : str) : M unit := fun w =>
  if bool_decide (src = dst) || same_file (os w) src dst
  then (Raise SameFileError, w)
  else (data ← read_bytes src; truncate dst;; write_bytes dst data) w.

(** [shutil.copymode(src, dst)]: [dst] gets the permission bits of
    [src], where the process may set them. *)
Definition copymode (src dst : str) : M unit := fun w =>
  if may_chmod (os w) dst
  then (Ok tt, World (files w) (chmod dst (perm (os w) src) (os w))
                     (entropy w) (draws w) (stdout w))
  else (Raise PermissionError, w).

(** [shutil.copy(src, dst)]: into [dst], under the base name of [src],
    when [dst] is a directory. *)
Definition shutil_copy (src dst : str) : M unit :=
  isdir dst ≫= fun d : bool =>
  let dst := if d then path_join dst (basename src) else dst in
  copyfile src dst;;
  copymode src dst.

(** [uuid.uuid4()], as its integer value. *)
Definition uuid_uuid4 : M N := fun w =>
  (Ok (Uuid.uuid4 (entropy w (draws w))),
   World (files w) (os w) (entropy w) (S (draws w)) (stdout w)).

(** [print(line)] *)
Definition print (line : str) : M unit := fun w =>
  (Ok tt, World (files w) (os w) (entropy w) (draws w)
                (stdout w ++ [line])).

(** [d[key]] *)
Definition getitem (d : gmap (list N) (list N)) (key : str) : result str :=
  match d !! key with
  | Some v => Ok v
  | None => Raise KeyError
  end.

(** ** The script *)

Record file_info := FileInfo { name : str; path : str }.

Definition project_file : str :=
  lit "/Users/leandroalmeida/iOS_DICOM/iOS_DICOMViewer.xcodeproj/project.pbxproj".

Definition backup_file : str := project_file ++ lit ".backup_add_files".

Definition files_to_add : list file_info :=
  [ FileInfo (lit "AutomaticSegmentationService.swift")
      (lit "iOS_DICOMViewer/Core/Services/AutomaticSegmentationService.swift");
    FileInfo (lit "UrinaryTractSegmentationService.swift")
      (lit "iOS_DICOMViewer/Core/Services/UrinaryTractSegmentationService.swift");
    FileInfo (lit "CoreMLSegmentationService.swift")
      (lit "iOS_DICOMViewer/Core/Services/CoreMLSegmentationService.swift");
    FileInfo (lit "ModernStudyCell.swift")
      (lit "iOS_DICOMViewer/ViewControllers/ModernStudyCell.swift");
    FileInfo (lit "StudyHeaderView.swift")
      (lit "iOS_DICOMViewer/ViewControllers/StudyHeaderView.swift") ].

(** Lines 43-48: two identifiers per file, in two dictionaries keyed by
    the file's name. *)
Definition generate_uuids
  : M (gmap (list N) (list N) * gmap (list N) (list N)) :=
  for_in files_to_add
    (fun '(file_refs, build_refs) file_info =>
       u ← uuid_uuid4;
       let file_refs := <[name file_info := Uuid.id_of_uuid u]> file_refs in
       u' ← uuid_uuid4;
       let build_refs :=
         <[name file_info := Uuid.id_of_uuid u']> build_refs in
       mret (file_refs, build_refs))
    (∅, ∅).

(** The four f-string templates: a PBXBuildFile record (line 58), a
    PBXFileReference record (line 72), a line of a group's children list
    (lines 82-84 and 91-92) and a line of the Sources phase (line 101). *)
Definition build_file_entry (build_ref n file_ref : str) : str :=
  lit "\t\t" ++ build_ref ++ lit " /* " ++ n
  ++ lit " in Sources */ = {isa = PBXBuildFile; fileRef = " ++ file_ref
  ++ lit " /* " ++ n ++ lit " */; };\n".

Definition file_ref_entry (file_ref n : str) : str :=
  lit "\t\t" ++ file_ref ++ lit " /* " ++ n
  ++ lit " */ = {isa = PBXFileReference; lastKnownFileType = sourcecode.swift; path = "
  ++ n ++ lit "; sourceTree = " ++ [DQUOTE] ++ lit "<group>" ++ [DQUOTE]
  ++ lit "; };\n".

Definition child_entry (file_ref n : str) : str :=
  lit "\n\t\t\t\t" ++ file_ref ++ lit " /* " ++ n ++ lit " */,".

Definition sources_entry (build_ref n : str) : str :=
  lit "\n\t\t\t\t" ++ build_ref ++ lit " /* " ++ n ++ lit " in Sources */,".

Section Patch.
Variables file_refs build_refs : gmap (list N) (list N).

(** The section patterns (lines 51 and 65): the begin marker of section
    [x], group 1 holding a lazy run of any characters (the dot under
    [re.DOTALL]), the end marker. *)
Definition section_pattern (x : str) : Re.re :=
  Re.Cat (Re.Chars (lit "/* Begin " ++ x ++ lit " section */"))
    (Re.Cat (Re.Group (Re.Rep Re.any 0 false))
       (Re.Chars (lit "/* End " ++ x ++ lit " section */"))).

(** The list patterns (lines 79, 88 and 96), all of it group 1: the
    comment naming [x] followed by an equals sign and an opening brace,
    one or more characters other than the closing brace, the key [l]
    with its opening parenthesis, then any characters other than the
    closing parenthesis; both runs greedy. *)
Definition list_pattern (x l : str) : Re.re :=
  Re.Group
    (Re.Cat (Re.Chars (lit "/* " ++ x ++ lit " */ = {"))
       (Re.Cat (Re.Rep (Re.not_char 125) 1 true)
          (Re.Cat (Re.Chars (l ++ lit " = ("))
             (Re.Rep (Re.not_char 41) 0 true)))).

(** [m.group(1)], used as text: [None] has neither [rstrip] nor [+]. *)
Definition group1 (e : exn) (m : Re.match_object) : result str :=
  match Re.m_group1 m with
  | Some g => Ok g
  | None => Raise e
  end.

(** Lines 56-58: one PBXBuildFile record per file, in the order of
    [files_to_add]. *)
Definition build_file_line (file_info : file_info) : result str :=
  b ← getitem build_refs (name file_info);
  f ← getitem file_refs (name file_info);
  mret (build_file_entry b (name file_info) f).

Definition new_build_entries : result str :=
  for_in files_to_add
    (fun acc file_info =>
       line ← build_file_line file_info; mret (acc ++ line))
    [].

(** Lines 50-62. *)
Definition add_build_files (content : str) : result str :=
  match Re.search (section_pattern (lit "PBXBuildFile")) content with
  | Some build_file_section =>
      build_section_content ← group1 AttributeError build_file_section;
      entries ← new_build_entries;
      let updated_build_section :=
        Str.rstrip build_section_content ++ lit "\n" ++ entries in
      mret (Str.replace content build_section_content
              updated_build_section)
  | None => mret content
  end.

(** Lines 70-72: one PBXFileReference record per file. *)
Definition file_ref_line (file_info : file_info) : result str :=
  f ← getitem file_refs (name file_info);
  mret (file_ref_entry f (name file_info)).

Definition new_file_entries : result str :=
  for_in files_to_add
    (fun acc file_info =>
       line ← file_ref_line file_info; mret (acc ++ line))
    [].

(** Lines 64-76. *)
Definition add_file_refs (content : str) : result str :=
  match Re.search (section_pattern (lit "PBXFileReference")) content with
  | Some file_ref_section =>
      file_section_content ← group1 AttributeError file_ref_section;
      entries ← new_file_entries;
      let updated_file_section :=
        Str.rstrip file_section_content ++ lit "\n" ++ entries in
      mret (Str.replace content file_section_content updated_file_section)
  | None => mret content
  end.

(** One line of a group's children list (lines 82-84 and 91-92). *)
Definition child_line (n : str) : result str :=
  f ← getitem file_refs n;
  mret (child_entry f n).

(** Lines 82-84: what is appended to the Core/Services match. *)
Definition new_services_group (services_group : str) : result str :=
  l1 ← child_line (lit "AutomaticSegmentationService.swift");
  let new_services_group := services_group ++ l1 in
  l2 ← child_line (lit "UrinaryTractSegmentationService.swift");
  let new_services_group := new_services_group ++ l2 in
  l3 ← child_line (lit "CoreMLSegmentationService.swift");
  mret (new_services_group ++ l3).

(** Lines 78-85. *)
Definition add_to_services_group (content : str) : result str :=
  match Re.search (list_pattern (lit "Core/Services") (lit "children"))
          content with
  | Some m =>
      services_group ← group1 TypeError m;
      new_group ← new_services_group services_group;
      mret (Str.replace content services_group new_group)
  | None => mret content
  end.

(** Lines 91-92: what is appended to the ViewControllers match. *)
Definition new_vc_group (vc_group : str) : result str :=
  l1 ← child_line (lit "ModernStudyCell.swift");
  let new_vc_group := vc_group ++ l1 in
  l2 ← child_line (lit "StudyHeaderView.swift");
  mret (new_vc_group ++ l2).

(** Lines 87-93. *)
Definition add_to_vc_group (content : str) : result str :=
  match Re.search (list_pattern (lit "ViewControllers") (lit "children"))
          content with
  | Some m =>
      vc_group ← group1 TypeError m;
      new_group ← new_vc_group vc_group;
      mret (Str.replace content vc_group new_group)
  | None => mret content
  end.

(** Lines 99-101: one line of the Sources phase per file. *)
Definition sources_line (file_info : file_info) : result str :=
  b ← getitem build_refs (name file_info);
  mret (sources_entry b (name file_info)).

Definition new_sources_phase (sources_phase : str) : result str :=
  for_in files_to_add
    (fun acc file_info =>
       line ← sources_line file_info; mret (acc ++ line))
    sources_phase.

(** Lines 95-102. *)
Definition add_to_sources_phase (content : str) : result str :=
  match Re.search (list_pattern (lit "Sources") (lit "files")) content with
  | Some m =>
      sources_phase ← group1 TypeError m;
      new_phase ← new_sources_phase sources_phase;
      mret (Str.replace content sources_phase new_phase)
  | None => mret content
  end.

(** Lines 50-102: the five updates, each on the text the previous one
    left. *)
Definition patch (content : str) : result str :=
  content ← add_build_files content;
  content ← add_file_refs content;
  content ← add_to_services_group content;
  content ← add_to_vc_group content;
  add_to_sources_phase content.
End Patch.

Definition add_files_to_xcode_project : M unit :=
  content ← open_read project_file;
  shutil_copy project_file backup_file;;
  '(file_refs, build_refs) ← generate_uuids;
  content ← lift (patch file_refs build_refs content);
  open_write project_file content;;
  print (lit "Added missing files to Xcode project:");;
  for_in files_to_add
    (fun _ file_info => print (lit "  - " ++ name file_info)) tt.

(** * The vocabulary of the properties *)

(** ** Offsets of a text inside another *)

(** Every offset, from [pos] on, at which [p] occurs in [s] (overlapping
    occurrences included). *)
Fixpoint find_all (p : str) (pos : nat) (s : str) : list nat :=
  (if Str.startswith p s then [pos] else [])
  ++ match s with
     | [] => []
     | _ :: s' => find_all p (S pos) s'
     end.

(** [p] occurs in [s] at exactly one offset. *)
Definition occurs_once (p s : str) : Prop := length (find_all p 0 s) = 1%nat.

(** [p] does not occur in [s]. *)
Definition absent (p s : str) : Prop := find_all p 0 s = [].

(** [p] occurs somewhere in [s]. *)
Definition occurs (p s : list N) : Prop := exists a b, s = a ++ p ++ b.

(** The character [c] is not in [p]. *)
Definition free_of (c : N) (p : list N) : bool :=
  forallb (fun x => negb (x =? c)) p.

(** ** What a pattern describes *)

(** [derives r w g g']: the text [w] is matched by [r], which turns the
    capture [g] into [g']. *)
Inductive derives : Re.re -> list N -> option (list N) -> option (list N) -> Prop :=
| derives_chars l g :
    derives (Re.Chars l) l g g
| derives_rep set min greedy w g :
    forallb set w = true -> (min <= length w)%nat ->
    derives (Re.Rep set min greedy) w g g
| derives_cat r1 r2 w1 w2 g g1 g2 :
    derives r1 w1 g g1 -> derives r2 w2 g1 g2 ->
    derives (Re.Cat r1 r2) (w1 ++ w2) g g2
| derives_group r w g g1 :
    derives r w g g1 ->
    derives (Re.Group r) w g (Some w).

(** The literal parts of the two kinds of pattern. *)
Definition begin_marker (x : list N) : list N := lit "/* Begin " ++ x ++ lit " section */".
Definition end_marker (x : list N) : list N := lit "/* End " ++ x ++ lit " section */".
Definition list_head (x : list N) : list N := lit "/* " ++ x ++ lit " */ = {".
Definition list_key (l : list N) : list N := l ++ lit " = (".

(** The five patterns of the script. *)
Definition PBXBuildFile : Re.re := section_pattern (lit "PBXBuildFile").
Definition PBXFileReference : Re.re := section_pattern (lit "PBXFileReference").
Definition CoreServices : Re.re := list_pattern (lit "Core/Services") (lit "children").
Definition ViewControllers : Re.re := list_pattern (lit "ViewControllers") (lit "children").
Definition Sources : Re.re := list_pattern (lit "Sources") (lit "files").

(** The text captured by a pattern, if it matches. *)
Definition captured (pat : Re.re) (content : list N) : option (list N) :=
  m ← Re.search pat content; Re.m_group1 m.

(** ** The five updates, as one scheme *)

(** What each update does with its pattern: where the pattern matches,
    every occurrence of the captured text [old] is replaced by
    [extend old]; where it does not, the text is left alone. *)
Definition update (pat : Re.re) (extend : list N -> list N) (content : list N)
  : list N :=
  match Re.search pat content with
  | Some m =>
      match Re.m_group1 m with
      | Some old => Str.replace content old (extend old)
      | None => content
      end
  | None => content
  end.

(** How the two kinds of update extend the captured text: a record
    section's body loses its trailing whitespace and gets a newline and
    the block; a list gets the block. *)
Definition extend_section (block old : list N) : list N :=
  Str.rstrip old ++ [NL] ++ block.

Definition extend_list (block old : list N) : list N := old ++ block.

(** The update of [a] into [b] touched the captured text only: where the
    pattern captures [old] and [old] occurs at a single offset of [a],
    the text before and after it is as it was and [old] has become
    [ext old]; where the pattern does not match, nothing has changed. *)
Definition localized (pat : Re.re) (ext : list N -> list N) (a b : list N)
  : Prop :=
  match captured pat a with
  | None => b = a
  | Some old =>
      occurs_once old a ->
      exists pre post, a = pre ++ old ++ post /\ b = pre ++ ext old ++ post
  end.

(** ** Identifiers and blocks *)

(** The uppercase hexadecimal digits. *)
Definition is_upper_hex (c : N) : bool :=
  ((48 <=? c) && (c <=? 57)) || ((65 <=? c) && (c <=? 70)).

(** The part of a UUID value an identifier shows: its leading 96 bits. *)
Definition leading_bits (u : N) : N := N.shiftr u 32.

(** The identifiers of the [k]-th file of [files_to_add] in a run that
    starts in [w]: its draws are the [2k]-th and the [2k+1]-th from there. *)
Definition file_id (w : world) (k : nat) : list N :=
  Uuid.new_id (entropy w (draws w + 2 * k)).

Definition build_id (w : world) (k : nat) : list N :=
  Uuid.new_id (entropy w (draws w + 2 * k + 1)).

(** The dictionaries hold, for the [k]-th file, the identifiers [F k] and
    [B k]. *)
Definition dicts_of (F B : nat -> list N)
    (file_refs build_refs : gmap (list N) (list N)) : Prop :=
  forall k fi, files_to_add !! k = Some fi ->
    file_refs !! name fi = Some (F k) /\ build_refs !! name fi = Some (B k).

(** The identifiers a run keeps, file by file: first those of the file
    references, then those of the build files. *)
Definition minted_ids (file_refs build_refs : gmap (list N) (list N))
  : list (list N) :=
  omap (fun fi => file_refs !! name fi) files_to_add
  ++ omap (fun fi => build_refs !! name fi) files_to_add.

(** The order in which the draws end up in [minted_ids]: the even ones
    (file references) before the odd ones (build files). *)
Definition draw_order : list nat := [0; 2; 4; 6; 8; 1; 3; 5; 7; 9]%nat.

(** Identifiers of the right format. *)
Definition valid_ids (F : nat -> list N) : Prop :=
  forall k, length (F k) = 24%nat /\ forallb is_upper_hex (F k) = true.

(** The blocks of lines a run adds, for identifiers [F] and [B]. *)
Definition build_block (F B : nat -> list N) : list N :=
  concat (imap (fun k fi => build_file_entry (B k) (name fi) (F k)) files_to_add).

Definition file_block (F : nat -> list N) : list N :=
  concat (imap (fun k fi => file_ref_entry (F k) (name fi)) files_to_add).

Definition services_block (F : nat -> list N) : list N :=
  concat (imap (fun k fi => child_entry (F k) (name fi)) (take 3 files_to_add)).

Definition vc_block (F : nat -> list N) : list N :=
  concat (imap (fun k fi => child_entry (F (3 + k)%nat) (name fi)) (drop 3 files_to_add)).

Definition sources_block (B : nat -> list N) : list N :=
  concat (imap (fun k fi => sources_entry (B k) (name fi)) files_to_add).

(** The five updates of a run, in order, for identifiers [F] and [B]:
    each a pattern and what becomes of the text it captures. *)
Definition updates (F B : nat -> list N)
  : list (Re.re * (list N -> list N)) :=
  [ (PBXBuildFile, extend_section (build_block F B));
    (PBXFileReference, extend_section (file_block F));
    (CoreServices, extend_list (services_block F));
    (ViewControllers, extend_list (vc_block F));
    (Sources, extend_list (sources_block B)) ].

(** Updates applied in a row, each to the text the previous one left. *)
Definition apply_updates (us : list (Re.re * (list N -> list N)))
    (content : list N) : list N :=
  foldl (fun c u => update u.1 u.2 c) content us.

Definition patched (F B : nat -> list N) (content : list N) : list N :=
  apply_updates (updates F B) content.

(** The world after a run that got through: the backup and the patched
    manifest written, ten draws consumed, the summary printed. *)
Definition summary : list (list N) :=
  lit "Added missing files to Xcode project:"
  :: map (fun fi => lit "  - " ++ name fi) files_to_add.

(** The manifest is a file that the process may read; it holds [bytes],
    which are the UTF-8 encoding of [text]. *)
Definition manifest_holds (w : world) (bytes text : list N) : Prop :=
  is_dir (os w) project_file = false
  /\ files w !! project_file = Some bytes
  /\ can_read (perm (os w) project_file) = true
  /\ Utf8.decode bytes = Some text.

(** Where the backup is written: at the backup path or, when that is a
    directory, inside it under the manifest's base name. *)
Definition backup_target (w : world) : list N :=
  if is_dir (os w) backup_file
  then path_join backup_file (basename project_file)
  else backup_file.

(** The process may open [p] for writing. *)
Definition may_write (w : world) (p : list N) : bool :=
  negb (is_dir (os w) p)
  && match files w !! p with
     | Some _ => can_write (perm (os w) p)
     | None => creatable (os w) p
     end.

(** The operating system lets the run through: the manifest can be read
    and decoded, the backup is another file than the manifest, can be
    written and can be given the manifest's permission bits, the
    manifest can be written, and the device sets no limit to either. *)
Definition goes_through (w : world) (bytes text : list N) : Prop :=
  manifest_holds w bytes text
  /\ same_file (os w) project_file (backup_target w) = false
  /\ may_write w (backup_target w) = true
  /\ room (os w) (backup_target w) = None
  /\ may_chmod (os w) (backup_target w) = true
  /\ can_write (perm (os w) project_file) = true
  /\ room (os w) project_file = None.

Definition world_after (w : world) (original written : list N) : world :=
  World (<[project_file := written]>
           (<[backup_target w := original]> (files w)))
        (chmod (backup_target w) (perm (os w) project_file) (os w))
        (entropy w) (draws w + 10) (stdout w ++ summary).

(** ** Texts known up to their identifiers *)

(** A character of a rendered line: a known one, or some uppercase
    hexadecimal digit of an identifier. *)
Inductive piece :=
| Known (c : N)
| Hex.

Definition fits_piece (x : piece) (c : N) : Prop :=
  match x with
  | Known k => c = k
  | Hex => is_upper_hex c = true
  end.

(** The text [s] is an instance of the template [t]. *)
Definition fits (t : list piece) (s : list N) : Prop := Forall2 fits_piece t s.

Fixpoint may_start (p : list N) (t : list piece) : bool :=
  match p, t with
  | [], _ => true
  | _ :: _, [] => false
  | a :: p', x :: t' =>
      match x with
      | Known k => a =? k
      | Hex => is_upper_hex a
      end && may_start p' t'
  end.

(** Some instance of [t] may contain [p]. *)
Fixpoint may_occur (p : list N) (t : list piece) : bool :=
  may_start p t
  || match t with
     | [] => false
     | _ :: t' => may_occur p t'
     end.

Definition known (l : list N) : list piece := map Known l.
Definition hex24 : list piece := replicate 24 Hex.

(** The templates of the four kinds of line. *)
Definition build_file_template (n : list N) : list piece :=
  known (lit "\t\t") ++ hex24 ++ known (lit " /* ") ++ known n
  ++ known (lit " in Sources */ = {isa = PBXBuildFile; fileRef = ") ++ hex24
  ++ known (lit " /* ") ++ known n ++ known (lit " */; };\n").

Definition file_ref_template (n : list N) : list piece :=
  known (lit "\t\t") ++ hex24 ++ known (lit " /* ") ++ known n
  ++ known (lit " */ = {isa = PBXFileReference; lastKnownFileType = sourcecode.swift; path = ")
  ++ known n ++ known (lit "; sourceTree = ") ++ known [DQUOTE]
  ++ known (lit "<group>") ++ known [DQUOTE] ++ known (lit "; };\n").

Definition child_template (n : list N) : list piece :=
  known (lit "\n\t\t\t\t") ++ hex24 ++ known (lit " /* ") ++ known n
  ++ known (lit " */,").

Definition sources_template (n : list N) : list piece :=
  known (lit "\n\t\t\t\t") ++ hex24 ++ known (lit " /* ") ++ known n
  ++ known (lit " in Sources */,").

(** The templates of the five blocks. *)
Definition build_block_template : list piece :=
  concat (map (fun fi => build_file_template (name fi)) files_to_add).

Definition file_block_template : list piece :=
  concat (map (fun fi => file_ref_template (name fi)) files_to_add).

Definition services_block_template : list piece :=
  concat (map (fun fi => child_template (name fi)) (take 3 files_to_add)).

Definition vc_block_template : list piece :=
  concat (map (fun fi => child_template (name fi)) (drop 3 files_to_add)).

Definition sources_block_template : list piece :=
  concat (map (fun fi => sources_template (name fi)) files_to_add).

(** ** Sample manifests and worlds *)

(** A small well-formed manifest: the two record sections, the two groups
    and the Sources phase, each with one entry. *)
Definition sample_manifest : list N :=
  lit "// !$*UTF8*$!\n{\n/* Begin PBXBuildFile section */\n\t\tAA01 /* A.swift in Sources */ = {isa = PBXBuildFile; fileRef = BB01 /* A.swift */; };\n/* End PBXBuildFile section */\n\n/* Begin PBXFileReference section */\n\t\tBB01 /* A.swift */ = {isa = PBXFileReference; path = A.swift; };\n/* End PBXFileReference section */\n\n/* Begin PBXGroup section */\n\t\tCC01 /* Core/Services */ = {\n\t\t\tisa = PBXGroup;\n\t\t\tchildren = (\n\t\t\t\tBB01 /* A.swift */,\n\t\t\t);\n\t\t};\n\t\tCC02 /* ViewControllers */ = {\n\t\t\tisa = PBXGroup;\n\t\t\tchildren = (\n\t\t\t);\n\t\t};\n/* End PBXGroup section */\n\n/* Begin PBXSourcesBuildPhase section */\n\t\tDD01 /* Sources */ = {\n\t\t\tisa = PBXSourcesBuildPhase;\n\t\t\tfiles = (\n\t\t\t\tAA01 /* A.swift in Sources */,\n\t\t\t);\n\t\t};\n/* End PBXSourcesBuildPhase section */\n}\n".

(** A manifest with a PBXBuildFile section and nothing else: no
    PBXFileReference section, no group, no Sources phase. *)
Definition build_section_only : list N :=
  lit "/* Begin PBXBuildFile section */\n\t\tAA01 /* A.swift in Sources */ = {isa = PBXBuildFile; fileRef = BB01 /* A.swift */; };\n/* End PBXBuildFile section */\n".


(** A text none of the five patterns matches. *)
Definition no_sections : list N := lit "// !$*UTF8*$!\n{\n}\n".

(** A manifest in which [zero_id] already names a file reference. *)
Definition manifest_with_zero_id : list N :=
  lit "/* Begin PBXBuildFile section */\n\t\tAA01 /* Old.swift in Sources */ = {isa = PBXBuildFile; fileRef = 000000000000400080000000 /* Old.swift */; };\n/* End PBXBuildFile section */\n/* Begin PBXFileReference section */\n\t\t000000000000400080000000 /* Old.swift */ = {isa = PBXFileReference; path = Old.swift; };\n/* End PBXFileReference section */\n".

(** A manifest whose PBXBuildFile section ends with a blank line. *)
Definition blank_line_manifest : list N :=
  lit "/* Begin PBXBuildFile section */\n\t\tAA01 /* A.swift in Sources */ = {isa = PBXBuildFile; fileRef = BB01 /* A.swift */; };\n\n/* End PBXBuildFile section */\n".

(** A manifest whose last PBXBuildFile record is followed by two blanks. *)
Definition trailing_blanks_manifest : list N :=
  lit "/* Begin PBXBuildFile section */\n\t\tAA01 /* A.swift in Sources */ = {isa = PBXBuildFile; fileRef = BB01 /* A.swift */; };  \n/* End PBXBuildFile section */\n".

(** The identifier that the all-zero draw yields. *)
Definition zero_id : list N := lit "000000000000400080000000".

(** The random source that always draws sixteen zero bytes. *)
Definition zero_draws (k : nat) : N := 0.

(** Draws that differ from one another in the leading bits. *)
Definition distinct_draws (k : nat) : N := N.shiftl (N.of_nat (S k)) 100.

(** A host that lets everything through: every file may be read and
    written, no path is a directory, a file may be created anywhere and
    given any permission bits, the device sets no limit, and no two
    paths name one file. *)
Definition permissive : host :=
  Host (fun _ => Perms true true) (fun _ => false) (fun _ => true)
       (fun _ => true) (fun _ => None) (fun _ _ => false).

(** A world holding [manifest] at the project path, on a permissive
    host, where nothing has been drawn or printed yet and the [k]-th
    draw is [rand k]. *)
Definition world_of (manifest : list N) (rand : nat -> N) : world :=
  World {[ project_file := manifest ]} permissive rand 0 [].

(** The same world with a backup path at which no file can be created. *)
Definition world_locked_backup (manifest : list N) (rand : nat -> N) : world :=
  World {[ project_file := manifest ]}
        (Host (fun _ => Perms true true) (fun _ => false)
              (fun p => negb (bool_decide (p = backup_file)))
              (fun _ => true) (fun _ => None) (fun _ _ => false))
        rand 0 [].

(** A manifest whose PBXBuildFile section is empty: its body is a lone
    newline, which occurs again after the end marker. *)
Definition empty_section_manifest : list N :=
  lit "/* Begin PBXBuildFile section */\n/* End PBXBuildFile section */\n".

(** A Sources phase that lists a file with parentheses in its name. *)
Definition parenthesis_manifest : list N :=
  lit "DD01 /* Sources */ = {\n\t\t\tfiles = (\n\t\t\t\tAA01 /* A (1).swift in Sources */,\n\t\t\t);\n};\n".

(** ** Further vocabulary *)

(** [s.find(p)]: the least offset at which [p] occurs in [s], if any. *)
Definition find_first (p s : list N) : option nat := head (find_all p 0 s).

(** The text between the first [B] and the first [E] after it. *)
Definition between (B E content : list N) : option (list N) :=
  i ← find_first B content;
  let rest := drop (i + length B) content in
  j ← find_first E rest;
  Some (take j rest).

(** [s.count(p)]: the occurrences of [p] in [s], counted from left to
    right without overlap, as [str.replace] meets them. *)
Fixpoint count_scan (p s : list N) (skip : nat) : nat :=
  match s with
  | [] => 0
  | _ :: s' =>
      match skip with
      | S k => count_scan p s' k
      | O =>
          if Str.startswith p s
          then S (count_scan p s' (length p - 1))
          else count_scan p s' 0
      end
  end.

Definition count (p s : list N) : nat :=
  match p with
  | [] => S (length s)
  | _ :: _ => count_scan p s 0
  end.

(** The characters of a text that are not whitespace, in their order. *)
Definition nonblank (s : list N) : list N :=
  filter (fun c => Str.isspace c = false) s.

(** A world without the manifest, and one whose manifest is read-only. *)
Definition world_without_manifest (rand : nat -> N) : world :=
  World ∅ permissive rand 0 [].


(** A world in which the device has room for [n] bytes of the manifest. *)
Definition world_small_device (manifest : list N) (rand : nat -> N) (n : nat)
  : world :=
  World {[ project_file := manifest ]}
        (Host (fun _ => Perms true true) (fun _ => false) (fun _ => true)
              (fun _ => true)
              (fun p => if bool_decide (p = project_file) then Some n else None)
              (fun _ _ => false))
        rand 0 [].

(** A world in which the backup path is a directory. *)
Definition world_backup_directory (manifest : list N) (rand : nat -> N) : world :=
  World {[ project_file := manifest ]}
        (Host (fun _ => Perms true true)
              (fun p => bool_decide (p = backup_file)) (fun _ => true)
              (fun _ => true) (fun _ => None) (fun _ _ => false))
        rand 0 [].

(** Bytes that are not UTF-8, and a manifest with the line endings of
    other systems: a carriage return and line feed, and a lone carriage
    return. *)
Definition undecodable_manifest : list N := [255].

Definition cr_manifest : list N :=
  lit "// !$*UTF8*$!" ++ [13; 10] ++ lit "{" ++ [13] ++ lit "}" ++ [10].


(** ** The steps of a run *)

(** The world after the backup copy, and after the ten draws. *)
Definition copied (w : world) (bytes : list N) : world :=
  World (<[backup_target w := bytes]> (files w))
        (chmod (backup_target w) (perm (os w) project_file) (os w))
        (entropy w) (draws w) (stdout w).

(** The outcome of a backup copy whose bytes have been written. *)
Definition mode_copied (w : world) (bytes : list N) : result unit * world :=
  if may_chmod (os w) (backup_target w)
  then (Ok tt, copied w bytes)
  else (Raise PermissionError,
        World (<[backup_target w := bytes]> (files w))
              (os w) (entropy w) (draws w) (stdout w)).

Definition drawn (w : world) (bytes : list N) : world :=
  World (<[backup_target w := bytes]> (files w))
        (chmod (backup_target w) (perm (os w) project_file) (os w))
        (entropy w) (draws w + 10) (stdout w).

(** What a run whose backup copy succeeded goes on to do, what a run
    that has copied the bytes of the manifest does, and what a run that
    has read the manifest does. *)
Definition after_copy (w : world) (bytes written : list N)
  : result unit * world :=
  if can_write (perm (os w) project_file)
  then match room (os w) project_file with
       | Some n =>
           if (n <? length written)%nat
           then (Raise OSError,
                 World (<[project_file := take n written]>
                          (<[backup_target w := bytes]> (files w)))
                       (chmod (backup_target w) (perm (os w) project_file)
                          (os w))
                       (entropy w) (draws w + 10) (stdout w))
           else (Ok tt, world_after w bytes written)
       | None => (Ok tt, world_after w bytes written)
       end
  else (Raise PermissionError, drawn w bytes).

Definition after_bytes (w : world) (bytes written : list N)
  : result unit * world :=
  if may_chmod (os w) (backup_target w)
  then after_copy w bytes written
  else (Raise PermissionError,
        World (<[backup_target w := bytes]> (files w))
              (os w) (entropy w) (draws w) (stdout w)).

Definition after_read (w : world) (bytes written : list N)
  : result unit * world :=
  if same_file (os w) project_file (backup_target w)
  then (Raise SameFileError, w)
  else if may_write w (backup_target w)
  then match room (os w) (backup_target w) with
       | Some n =>
           if (n <? length bytes)%nat
           then (Raise OSError,
                 World (<[backup_target w := take n bytes]> (files w))
                       (os w) (entropy w) (draws w) (stdout w))
           else after_bytes w bytes written
       | None => after_bytes w bytes written
       end
  else (Raise (if is_dir (os w) (backup_target w)
               then IsADirectoryError else PermissionError), w).

(** A piece of a template passes the test [ok]: a known character that
    does, or a hexadecimal digit. *)
Definition ok_piece (ok : N -> bool) (x : piece) : bool :=
  match x with
  | Known c => ok c
  | Hex => true
  end.

(** * Properties *)

(** ** Text primitives *)

Section StrFacts.
Implicit Types p s t old new : list N.

Lemma startswith_app p t : Str.startswith p (p ++ t) = true.
Proof.
  induction p as [|a p IH]; simpl; [done|].
  by rewrite N.eqb_refl, IH.
Qed.

Lemma startswith_inv p s :
  Str.startswith p s = true -> s = p ++ drop (length p) s.
Proof.
  revert s; induction p as [|a p IH]; intros [|b s]; simpl; try done.
  intros [Hab Hp]%andb_prop. apply N.eqb_eq in Hab as ->.
  f_equal. by apply IH.
Qed.

Lemma startswith_nil_r p : p <> [] -> Str.startswith p [] = false.
Proof. by destruct p. Qed.

(** Skipping [k] characters is resuming the scan [k] characters on. *)
Lemma replace_scan_skip old new s k :
  Str.replace_scan old new s k = Str.replace_scan old new (drop k s) 0.
Proof.
  revert k; induction s as [|c s IH]; intros [|k]; simpl; done.
Qed.

(** The scan, one occurrence at a time. *)
Lemma replace_scan_cons old new c s :
  old <> [] ->
  Str.replace_scan old new (c :: s) 0 =
    if Str.startswith old (c :: s)
    then new ++ Str.replace_scan old new (drop (length old) (c :: s)) 0
    else c :: Str.replace_scan old new s 0.
Proof.
  intros Hold. cbn [Str.replace_scan].
  destruct (Str.startswith old (c :: s)) eqn:E; [|done].
  rewrite replace_scan_skip. destruct old as [|a old]; [done|].
  simpl. by rewrite Nat.sub_0_r.
Qed.

Lemma find_all_ge p pos s i : i ∈ find_all p pos s -> (pos <= i)%nat.
Proof.
  revert pos; induction s as [|c s IH]; intros pos; simpl.
  - destruct (Str.startswith p []); simpl; set_solver.
  - rewrite elem_of_app. intros [H|H].
    + destruct (Str.startswith p (c :: s)); set_solver.
    + apply IH in H. lia.
Qed.

Lemma find_all_shift p pos s :
  find_all p pos s = (fun i => (pos + i)%nat) <$> find_all p 0 s.
Proof.
  revert pos; induction s as [|c s IH]; intros pos; simpl.
  - destruct (Str.startswith p []); simpl; [by rewrite Nat.add_0_r|done].
  - rewrite fmap_app, (IH (S pos)), (IH 1%nat), <- list_fmap_compose.
    f_equal.
    + destruct (Str.startswith p (c :: s)); simpl; [by rewrite Nat.add_0_r|done].
    + apply list_fmap_ext. intros _ i _. simpl. lia.
Qed.

Lemma find_all_elem p pos s k :
  (pos + k)%nat ∈ find_all p pos s <->
  (k <= length s)%nat /\ Str.startswith p (drop k s) = true.
Proof.
  revert pos k; induction s as [|c s IH]; intros pos k; simpl.
  - destruct k as [|k]; simpl.
    + rewrite Nat.add_0_r. destruct (Str.startswith p []); set_solver.
    + split; [|lia]. destruct (Str.startswith p []); simpl; intros H.
      * apply list_elem_of_singleton in H. lia.
      * by apply elem_of_nil in H.
  - rewrite elem_of_app. destruct k as [|k]; simpl.
    + rewrite Nat.add_0_r. split.
      * intros [H|H]; [|apply find_all_ge in H; lia].
        destruct (Str.startswith p (c :: s)); [split; [lia|done]|set_solver].
      * intros [_ ->]. left. set_solver.
    + replace (pos + S k)%nat with (S pos + k)%nat by lia.
      rewrite <- Nat.succ_le_mono, <- IH. split; [|by right].
      intros [H|H]; [|done].
      destruct (Str.startswith p (c :: s)); [|set_solver].
      apply list_elem_of_singleton in H. lia.
Qed.

Lemma absent_drop p s k : absent p s -> absent p (drop k s).
Proof.
  unfold absent. intros H.
  assert (Hle : forall j, (j <= length s)%nat -> find_all p 0 (drop j s) = []).
  { intros j Hj.
    destruct (find_all p 0 (drop j s)) as [|i l] eqn:E; [done|].
    assert (Hi : (0 + i)%nat ∈ find_all p 0 (drop j s)) by (rewrite E; left).
    apply find_all_elem in Hi as [Hlen Hsw].
    rewrite length_drop in Hlen. rewrite drop_drop in Hsw.
    assert (Hin : (0 + (j + i))%nat ∈ find_all p 0 s).
    { apply find_all_elem. split; [lia|done]. }
    rewrite H in Hin. by apply elem_of_nil in Hin. }
  destruct (decide (k <= length s)%nat) as [Hk|Hk]; [by apply Hle|].
  rewrite drop_ge by lia. rewrite <- (drop_all s). by apply Hle.
Qed.

(** A text that does not occur is not replaced. *)
Lemma replace_scan_absent old new s :
  old <> [] -> absent old s -> Str.replace_scan old new s 0 = s.
Proof.
  intros Hold. unfold absent.
  induction s as [|c s IH]; [done|].
  rewrite replace_scan_cons by done. cbn [find_all].
  destruct (Str.startswith old (c :: s)); [done|]. simpl.
  intros H. f_equal. apply IH.
  rewrite find_all_shift in H. by destruct (find_all old 0 s).
Qed.

(** A text that occurs at one offset only is replaced there, and the
    rest is left as it was. *)
Lemma replace_scan_once old new s i :
  old <> [] -> find_all old 0 s = [i] ->
  Str.replace_scan old new s 0 = take i s ++ new ++ drop (i + length old) s.
Proof.
  intros Hold. revert i.
  induction s as [|c s IH]; intros i.
  - simpl. by rewrite startswith_nil_r.
  - rewrite replace_scan_cons by done. cbn [find_all].
    destruct (Str.startswith old (c :: s)) eqn:E.
    + simpl. intros [= <- H]. simpl. f_equal.
      apply (replace_scan_absent old new (drop (length old) (c :: s))); [done|].
      destruct old as [|a old]; [done|]. simpl.
      apply absent_drop. unfold absent.
      rewrite find_all_shift in H. by destruct (find_all (a :: old) 0 s).
    + simpl. intros H. rewrite find_all_shift in H.
      destruct (find_all old 0 s) as [|j [|??]] eqn:E'; try done.
      injection H as <-. simpl. f_equal. by apply IH.
Qed.

Lemma replace_once s old new i :
  old <> [] -> find_all old 0 s = [i] ->
  s = take i s ++ old ++ drop (i + length old) s /\
  Str.replace s old new = take i s ++ new ++ drop (i + length old) s.
Proof.
  intros Hold Hi. split.
  - assert (Hin : (0 + i)%nat ∈ find_all old 0 s) by (rewrite Hi; left).
    apply find_all_elem in Hin as [_ Hsw]. apply startswith_inv in Hsw.
    rewrite drop_drop in Hsw. rewrite <- Hsw. by rewrite take_drop.
  - unfold Str.replace. destruct old; [done|]. by apply replace_scan_once.
Qed.

Lemma replace_absent s old new :
  old <> [] -> absent old s -> Str.replace s old new = s.
Proof.
  intros Hold H. unfold Str.replace. destruct old; [done|].
  by apply replace_scan_absent.
Qed.

(** Where a text occurs once, any way of cutting it out finds the same
    place. *)
Lemma occurs_once_split p s a b :
  occurs_once p s -> s = a ++ p ++ b -> find_all p 0 s = [length a].
Proof.
  unfold occurs_once. intros H ->.
  assert (Hin : (0 + length a)%nat ∈ find_all p 0 (a ++ p ++ b)).
  { apply find_all_elem. split; [rewrite length_app; lia|].
    rewrite drop_app_length. apply startswith_app. }
  destruct (find_all p 0 (a ++ p ++ b)) as [|i [|??]]; try done.
  apply list_elem_of_singleton in Hin. simpl in Hin. by subst.
Qed.

(** ** [rstrip] *)

Lemma rstrip_prefix s : exists ws, s = Str.rstrip s ++ ws /\ forallb Str.isspace ws = true.
Proof.
  induction s as [|c s (ws & Hs & Hws)]; [by exists []|].
  simpl. destruct (Str.rstrip s) as [|r rs] eqn:E.
  - destruct (Str.isspace c) eqn:Ec.
    + exists (c :: ws). simpl in *. rewrite Ec, Hws. by subst.
    + exists ws. simpl in *. by subst.
  - exists ws. split; [|done]. simpl. f_equal. exact Hs.
Qed.

Lemma rstrip_app_nonspace s c :
  Str.isspace c = false -> Str.rstrip (s ++ [c]) = s ++ [c].
Proof.
  intros Hc. induction s as [|a s IH]; simpl; [by rewrite Hc|].
  rewrite IH. by destruct s.
Qed.

Lemma rstrip_app_space s c :
  Str.isspace c = true -> Str.rstrip (s ++ [c]) = Str.rstrip s.
Proof.
  intros Hc. induction s as [|a s IH]; simpl; [by rewrite Hc|].
  by rewrite IH.
Qed.
End StrFacts.

(** ** The matcher finds only what the pattern describes *)

Section ReFacts.
Context {R : Type}.
Implicit Types (s w : list N) (k : list N -> option R).

Lemma star_greedy_sound set k s x :
  Re.star_greedy set k s = Some x ->
  exists w s', s = w ++ s' /\ forallb set w = true /\ k s' = Some x.
Proof.
  induction s as [|c s IH]; simpl.
  - intros H. by exists [], [].
  - destruct (set c) eqn:Ec; [|intros H; by exists [], (c :: s)].
    destruct (Re.star_greedy set k s) as [y|] eqn:E.
    + intros [= ->]. destruct (IH eq_refl) as (w & s' & -> & Hw & Hk).
      exists (c :: w), s'. simpl. by rewrite Ec, Hw.
    + intros H. by exists [], (c :: s).
Qed.

Lemma star_lazy_sound set k s x :
  Re.star_lazy set k s = Some x ->
  exists w s', s = w ++ s' /\ forallb set w = true /\ k s' = Some x.
Proof.
  induction s as [|c s IH]; simpl.
  - destruct (k []) eqn:E; [|done]. intros [= ->]. by exists [], [].
  - destruct (k (c :: s)) eqn:E.
    + intros [= ->]. by exists [], (c :: s).
    + destruct (set c) eqn:Ec; [|done].
      intros (w & s' & -> & Hw & Hk)%IH.
      exists (c :: w), s'. simpl. by rewrite Ec, Hw.
Qed.

Lemma at_least_sound set min (rest : list N -> option R) s x :
  Re.at_least set min rest s = Some x ->
  exists w s', s = w ++ s' /\ forallb set w = true /\ length w = min
               /\ rest s' = Some x.
Proof.
  revert s; induction min as [|m IH]; intros s; simpl.
  - intros H. by exists [], s.
  - destruct s as [|c s]; [done|]. destruct (set c) eqn:Ec; [|done].
    intros (w & s' & -> & Hw & Hlen & Hk)%IH.
    exists (c :: w), s'. simpl. by rewrite Ec, Hw, Hlen.
Qed.

(** A greedy run whose continuation cannot fail takes every character of
    the set there is. *)
Lemma star_greedy_total set k s :
  (forall t, is_Some (k t)) ->
  exists w s', s = w ++ s' /\ forallb set w = true
    /\ match s' with [] => True | c :: _ => set c = false end
    /\ Re.star_greedy set k s = k s'.
Proof.
  intros Hk. induction s as [|c s (w & s' & -> & Hw & Hs' & IH)]; simpl.
  - by exists [], [].
  - destruct (set c) eqn:Ec.
    + exists (c :: w), s'. simpl. rewrite Ec, Hw, IH.
      destruct (Hk s') as [y ->]. done.
    + exists [], (c :: w ++ s'). by rewrite Ec.
Qed.

Lemma run_sound r : forall s g (k : Re.cont R) x,
  Re.run r s g k = Some x ->
  exists w s' g', s = w ++ s' /\ derives r w g g' /\ k s' g' = Some x.
Proof.
  induction r as [l|set min greedy|r1 IH1 r2 IH2|r1 IH1]; intros s g k x; simpl.
  - destruct (Str.startswith l s) eqn:E; [|done]. intros Hk.
    exists l, (drop (length l) s), g. split; [by apply startswith_inv|].
    split; [constructor|done].
  - intros (w1 & s1 & -> & Hw1 & Hlen & H)%at_least_sound.
    assert (exists w2 s2, s1 = w2 ++ s2 /\ forallb set w2 = true
                          /\ k s2 g = Some x) as (w2 & s2 & -> & Hw2 & Hk).
    { destruct greedy; [by apply star_greedy_sound in H|by apply star_lazy_sound in H]. }
    exists (w1 ++ w2), s2, g. rewrite <- app_assoc. split; [done|].
    split; [|done]. constructor.
    + by rewrite forallb_app, Hw1, Hw2.
    + rewrite length_app. lia.
  - intros (w1 & s1 & g1 & -> & Hd1 & H)%IH1.
    apply IH2 in H as (w2 & s2 & g2 & -> & Hd2 & Hk).
    exists (w1 ++ w2), s2, g2. rewrite <- app_assoc.
    split; [done|]. split; [by econstructor|done].
  - intros (w & s' & g' & -> & Hd & Hk)%IH1.
    cbv beta in Hk. rewrite length_app, Nat.add_sub, take_app_length in Hk.
    exists w, s', (Some w). split; [done|]. split; [by econstructor|done].
Qed.
End ReFacts.

Lemma match_at_sound r pos s m :
  Re.match_at r pos s = Some m ->
  exists w s' g, s = w ++ s' /\ derives r w None g
    /\ m = Re.Match pos (pos + length w) g.
Proof.
  unfold Re.match_at.
  intros (w & s' & g & -> & Hd & [= <-])%run_sound.
  exists w, s', g. rewrite length_app, Nat.add_sub. done.
Qed.

Lemma search_from_sound r pos s m :
  Re.search_from r pos s = Some m ->
  exists a w b g, s = a ++ w ++ b /\ derives r w None g
    /\ m = Re.Match (pos + length a) (pos + length a + length w) g.
Proof.
  revert pos; induction s as [|c s IH]; intros pos; simpl.
  - destruct (Re.match_at r pos []) eqn:E; [|done]. intros [= ->].
    apply match_at_sound in E as (w & s' & g & Hs & Hd & ->).
    exists [], w, s', g. simpl. by rewrite Nat.add_0_r.
  - destruct (Re.match_at r pos (c :: s)) eqn:E.
    + intros [= ->].
      apply match_at_sound in E as (w & s' & g & Hs & Hd & ->).
      exists [], w, s', g. simpl. by rewrite Nat.add_0_r.
    + intros (a & w & b & g & -> & Hd & ->)%IH.
      exists (c :: a), w, b, g. simpl. split; [done|]. split; [done|].
      f_equal; lia.
Qed.

(** ** The two kinds of pattern *)

Lemma section_shape_sound B E content m :
  Re.search (Re.Cat (Re.Chars B)
               (Re.Cat (Re.Group (Re.Rep Re.any 0 false)) (Re.Chars E)))
    content = Some m ->
  exists pre body post,
    content = pre ++ B ++ body ++ E ++ post /\ Re.m_group1 m = Some body.
Proof.
  intros (a & w & b & g & -> & Hd & ->)%search_from_sound.
  inversion Hd as [| |r1 r2 w1 w2 g0 g1 g2 H1 H2|]; subst; clear Hd.
  inversion H1; subst; clear H1.
  inversion H2 as [| |r1 r2 w3 w4 g0 g3 g4 H3 H4|]; subst; clear H2.
  inversion H4; subst; clear H4.
  inversion H3; subst; clear H3.
  exists a, w3, b. split; [|done]. by rewrite <- !app_assoc.
Qed.

Lemma section_pattern_sound x content m :
  Re.search (section_pattern x) content = Some m ->
  exists pre body post,
    content = pre ++ begin_marker x ++ body ++ end_marker x ++ post
    /\ Re.m_group1 m = Some body.
Proof. apply section_shape_sound. Qed.

Lemma list_shape_sound H K content m :
  Re.search
    (Re.Group
       (Re.Cat (Re.Chars H)
          (Re.Cat (Re.Rep (Re.not_char 125) 1 true)
             (Re.Cat (Re.Chars K) (Re.Rep (Re.not_char 41) 0 true)))))
    content = Some m ->
  exists pre w1 w2 post,
    content = pre ++ (H ++ w1 ++ K ++ w2) ++ post
    /\ Re.m_group1 m = Some (H ++ w1 ++ K ++ w2)
    /\ forallb (Re.not_char 125) w1 = true /\ w1 <> []
    /\ forallb (Re.not_char 41) w2 = true.
Proof.
  intros (a & w & b & g & -> & Hd & ->)%search_from_sound.
  inversion Hd as [| | |r w' g0 g1 H0]; subst; clear Hd.
  inversion H0 as [| |r1 r2 w1 w2 g0 g2 g3 H1 H2|]; subst; clear H0.
  inversion H1; subst; clear H1.
  inversion H2 as [| |r1 r2 w3 w4 g0 g4 g5 H3 H4|]; subst; clear H2.
  inversion H3; subst; clear H3.
  inversion H4 as [| |r1 r2 w5 w6 g0 g6 g7 H5 H6|]; subst; clear H4.
  inversion H5; subst; clear H5.
  inversion H6; subst; clear H6.
  exists a, w3, w6, b.
  rewrite <- !app_assoc. repeat split; try done.
  intros ->. simpl in *. lia.
Qed.

Lemma list_pattern_sound x l content m :
  Re.search (list_pattern x l) content = Some m ->
  exists pre w1 w2 post,
    content = pre ++ (list_head x ++ w1 ++ list_key l ++ w2) ++ post
    /\ Re.m_group1 m = Some (list_head x ++ w1 ++ list_key l ++ w2)
    /\ forallb (Re.not_char 125) w1 = true /\ w1 <> []
    /\ forallb (Re.not_char 41) w2 = true.
Proof. apply list_shape_sound. Qed.

(** ** The dictionaries and the rendered blocks *)

Lemma for_in_cons_M {A S} (x : A) l (body : S -> A -> M S) acc w :
  for_in (x :: l) body acc w =
    match body acc x w with
    | (Ok a, w') => for_in l body a w'
    | (Raise e, w') => (Raise e, w')
    end.
Proof. reflexivity. Qed.

Local Ltac lit_neq :=
  let H := fresh in intros H; vm_compute in H; discriminate H.

(** The allocation loop always succeeds: ten draws, two per file, none of
    them compared with anything. *)
Lemma generate_uuids_spec w :
  exists file_refs build_refs,
    generate_uuids w =
      (Ok (file_refs, build_refs),
       World (files w) (os w) (entropy w) (draws w + 10) (stdout w))
    /\ dicts_of (file_id w) (build_id w) file_refs build_refs
    /\ (forall n i, file_refs !! n = Some i -> exists k, (k < 5)%nat /\ i = file_id w k)
    /\ (forall n i, build_refs !! n = Some i -> exists k, (k < 5)%nat /\ i = build_id w k).
Proof.
  destruct w as [fs wr e d out].
  unfold generate_uuids, files_to_add.
  cbv beta iota zeta delta [for_in mbind M_bind mret M_ret uuid_uuid4 name
       files os entropy draws stdout].
  eexists _, _. split.
  { repeat f_equal. lia. }
  unfold file_id, build_id, Uuid.new_id. cbn [entropy draws].
  replace (S d) with (d + 2 * 0 + 1)%nat by lia.
  replace (S (d + 2 * 0 + 1)) with (d + 2 * 1)%nat by lia.
  replace (S (d + 2 * 1)) with (d + 2 * 1 + 1)%nat by lia.
  replace (S (d + 2 * 1 + 1)) with (d + 2 * 2)%nat by lia.
  replace (S (d + 2 * 2)) with (d + 2 * 2 + 1)%nat by lia.
  replace (S (d + 2 * 2 + 1)) with (d + 2 * 3)%nat by lia.
  replace (S (d + 2 * 3)) with (d + 2 * 3 + 1)%nat by lia.
  replace (S (d + 2 * 3 + 1)) with (d + 2 * 4)%nat by lia.
  replace (S (d + 2 * 4)) with (d + 2 * 4 + 1)%nat by lia.
  replace (e d) with (e (d + 2 * 0)%nat) by (f_equal; lia).
  split; [|split].
  - intros k fi Hk.
    do 5 (destruct k as [|k]; [injection Hk as <-; cbn [name]; split;
      repeat (first [by rewrite lookup_insert_eq
                    | rewrite lookup_insert_ne by lit_neq])|]).
    done.
  - intros n i.
    rewrite lookup_insert; case_decide;
      [intros [= <-]; exists 4%nat; split; [lia|reflexivity]|].
    rewrite lookup_insert; case_decide;
      [intros [= <-]; exists 3%nat; split; [lia|reflexivity]|].
    rewrite lookup_insert; case_decide;
      [intros [= <-]; exists 2%nat; split; [lia|reflexivity]|].
    rewrite lookup_insert; case_decide;
      [intros [= <-]; exists 1%nat; split; [lia|reflexivity]|].
    rewrite lookup_insert; case_decide;
      [intros [= <-]; exists 0%nat; split; [lia|reflexivity]|].
    by rewrite lookup_empty.
  - intros n i.
    rewrite lookup_insert; case_decide;
      [intros [= <-]; exists 4%nat; split; [lia|reflexivity]|].
    rewrite lookup_insert; case_decide;
      [intros [= <-]; exists 3%nat; split; [lia|reflexivity]|].
    rewrite lookup_insert; case_decide;
      [intros [= <-]; exists 2%nat; split; [lia|reflexivity]|].
    rewrite lookup_insert; case_decide;
      [intros [= <-]; exists 1%nat; split; [lia|reflexivity]|].
    rewrite lookup_insert; case_decide;
      [intros [= <-]; exists 0%nat; split; [lia|reflexivity]|].
    by rewrite lookup_empty.
Qed.

Section Rendering.
Variables (F B : nat -> list N) (file_refs build_refs : gmap (list N) (list N)).
Hypothesis Hdicts : dicts_of F B file_refs build_refs.

Local Ltac lookups :=
  pose proof (Hdicts 0%nat _ eq_refl) as [HF0 HB0];
  pose proof (Hdicts 1%nat _ eq_refl) as [HF1 HB1];
  pose proof (Hdicts 2%nat _ eq_refl) as [HF2 HB2];
  pose proof (Hdicts 3%nat _ eq_refl) as [HF3 HB3];
  pose proof (Hdicts 4%nat _ eq_refl) as [HF4 HB4];
  cbn [name] in *.

Local Ltac render :=
  cbv beta iota zeta delta
    [for_in files_to_add build_file_line file_ref_line child_line
     sources_line getitem mbind result_bind mret result_ret name];
  repeat match goal with H : _ !! _ = Some _ |- _ => rewrite H; clear H end;
  cbv beta iota;
  cbn [concat imap take drop app Nat.add];
  rewrite ?app_nil_r, <- ?app_assoc.

Lemma new_build_entries_eq :
  new_build_entries file_refs build_refs = Ok (build_block F B).
Proof.
  lookups. unfold new_build_entries, build_block. render. done.
Qed.

Lemma new_file_entries_eq :
  new_file_entries file_refs = Ok (file_block F).
Proof.
  lookups. unfold new_file_entries, file_block. render. done.
Qed.

Lemma new_services_group_eq g :
  new_services_group file_refs g = Ok (g ++ services_block F).
Proof.
  lookups. unfold new_services_group, services_block. render. done.
Qed.

Lemma new_vc_group_eq g :
  new_vc_group file_refs g = Ok (g ++ vc_block F).
Proof.
  lookups. unfold new_vc_group, vc_block. render. done.
Qed.

Lemma new_sources_phase_eq g :
  new_sources_phase build_refs g = Ok (g ++ sources_block B).
Proof.
  lookups. unfold new_sources_phase, sources_block. render. done.
Qed.
End Rendering.

(** ** The updates and the run, in closed form *)

Section Steps.
Variables (F B : nat -> list N) (file_refs build_refs : gmap (list N) (list N)).
Hypothesis Hdicts : dicts_of F B file_refs build_refs.

Lemma add_build_files_eq content :
  add_build_files file_refs build_refs content =
    Ok (update PBXBuildFile (extend_section (build_block F B)) content).
Proof.
  unfold add_build_files, update, PBXBuildFile.
  destruct (Re.search _ content) as [m|] eqn:E; [|done].
  apply section_pattern_sound in E as (pre & body & post & _ & Hg).
  unfold group1. rewrite Hg. cbn [mbind result_bind].
  by rewrite (new_build_entries_eq F B).
Qed.

Lemma add_file_refs_eq content :
  add_file_refs file_refs content =
    Ok (update PBXFileReference (extend_section (file_block F)) content).
Proof.
  unfold add_file_refs, update, PBXFileReference.
  destruct (Re.search _ content) as [m|] eqn:E; [|done].
  apply section_pattern_sound in E as (pre & body & post & _ & Hg).
  unfold group1. rewrite Hg. cbn [mbind result_bind].
  by rewrite (new_file_entries_eq F B _ build_refs).
Qed.

Lemma add_to_services_group_eq content :
  add_to_services_group file_refs content =
    Ok (update CoreServices (extend_list (services_block F)) content).
Proof.
  unfold add_to_services_group, update, CoreServices.
  destruct (Re.search _ content) as [m|] eqn:E; [|done].
  apply list_pattern_sound in E as (pre & w1 & w2 & post & _ & Hg & _).
  unfold group1. rewrite Hg. cbn [mbind result_bind].
  by rewrite (new_services_group_eq F B _ build_refs).
Qed.

Lemma add_to_vc_group_eq content :
  add_to_vc_group file_refs content =
    Ok (update ViewControllers (extend_list (vc_block F)) content).
Proof.
  unfold add_to_vc_group, update, ViewControllers.
  destruct (Re.search _ content) as [m|] eqn:E; [|done].
  apply list_pattern_sound in E as (pre & w1 & w2 & post & _ & Hg & _).
  unfold group1. rewrite Hg. cbn [mbind result_bind].
  by rewrite (new_vc_group_eq F B _ build_refs).
Qed.

Lemma add_to_sources_phase_eq content :
  add_to_sources_phase build_refs content =
    Ok (update Sources (extend_list (sources_block B)) content).
Proof.
  unfold add_to_sources_phase, update, Sources.
  destruct (Re.search _ content) as [m|] eqn:E; [|done].
  apply list_pattern_sound in E as (pre & w1 & w2 & post & _ & Hg & _).
  unfold group1. rewrite Hg. cbn [mbind result_bind].
  by rewrite (new_sources_phase_eq F B file_refs).
Qed.

Lemma patch_eq content :
  patch file_refs build_refs content = Ok (patched F B content).
Proof.
  unfold patch, patched, updates, apply_updates. cbn [foldl fst snd].
  rewrite add_build_files_eq. cbn [mbind result_bind].
  rewrite add_file_refs_eq. cbn [mbind result_bind].
  rewrite add_to_services_group_eq. cbn [mbind result_bind].
  rewrite add_to_vc_group_eq. cbn [mbind result_bind].
  by rewrite add_to_sources_phase_eq.
Qed.
End Steps.

Lemma print_summary fs wr e d out :
  for_in files_to_add (fun _ file_info => print (lit "  - " ++ name file_info)) tt
    (World fs wr e d (out ++ [lit "Added missing files to Xcode project:"])) =
  (Ok tt, World fs wr e d (out ++ summary)).
Proof.
  unfold summary, files_to_add.
  cbv beta iota zeta delta [for_in mbind M_bind mret M_ret print name map
       files os entropy draws stdout].
  by rewrite <- !app_assoc.
Qed.

Lemma bind_ok {A B} (m : M A) (f : A -> M B) w a w' :
  m w = (Ok a, w') -> (m ≫= f) w = f a w'.
Proof. intros H. unfold mbind, M_bind. by rewrite H. Qed.

Lemma bind_raise {A B} (m : M A) (f : A -> M B) w e w' :
  m w = (Raise e, w') -> (m ≫= f) w = (Raise e, w').
Proof. intros H. unfold mbind, M_bind. by rewrite H. Qed.

(** ** Identifiers *)

Section UuidFacts.
Import Uuid.

Lemma nibble_lt n k : nibble n k < 16.
Proof.
  unfold nibble. change 15 with (N.ones 4). rewrite N.land_ones.
  apply N.mod_lt. done.
Qed.

Lemma upper_hex_digit d :
  d < 16 -> is_upper_hex (Str.upper_char (hex_digit d)) = true.
Proof.
  intros H.
  assert (Hd : In d (map N.of_nat (seq 0 16))).
  { apply in_map_iff. exists (N.to_nat d). split; [lia|]. apply in_seq. lia. }
  simpl in Hd. intuition (subst; reflexivity).
Qed.

Lemma upper_hex_digit_inj d d' :
  d < 16 -> d' < 16 ->
  Str.upper_char (hex_digit d) = Str.upper_char (hex_digit d') -> d = d'.
Proof.
  intros H H'.
  assert (Hd : In d (map N.of_nat (seq 0 16))).
  { apply in_map_iff. exists (N.to_nat d). split; [lia|]. apply in_seq. lia. }
  assert (Hd' : In d' (map N.of_nat (seq 0 16))).
  { apply in_map_iff. exists (N.to_nat d'). split; [lia|]. apply in_seq. lia. }
  simpl in Hd, Hd'.
  intuition (subst; first [reflexivity | vm_compute; discriminate]).
Qed.

Lemma hex_digit_not_hyphen d : d < 16 -> hex_digit d <> HYPHEN.
Proof.
  unfold hex_digit, HYPHEN. intros H. destruct (d <? 10) eqn:E.
  - apply N.ltb_lt in E. lia.
  - lia.
Qed.

(** Replacing a character by nothing filters it out. *)
Lemma replace_char_empty h s :
  Str.replace s [h] [] = filter (fun c => c <> h) s.
Proof.
  unfold Str.replace. induction s as [|c s IH]; [done|].
  cbn [Str.replace_scan Str.startswith length Nat.sub app].
  rewrite andb_true_r. rewrite filter_cons.
  destruct (N.eqb_spec h c) as [->|Hne].
  - rewrite decide_False by (by intros H; apply H). exact IH.
  - rewrite decide_True by congruence. by rewrite IH.
Qed.

Lemma format_032x_length n : length (format_032x n) = hex_width n.
Proof. unfold format_032x. by rewrite length_map, length_reverse, length_seq. Qed.

Lemma hex_width_ge n : (32 <= hex_width n)%nat.
Proof. unfold hex_width. lia. Qed.

Lemma filter_all {A} (P : A -> Prop) `{forall x, Decision (P x)} (l : list A) :
  Forall P l -> filter P l = l.
Proof.
  induction 1 as [|x l Hx _ IH]; [done|].
  rewrite filter_cons, decide_True by done. by rewrite IH.
Qed.

Lemma format_032x_no_hyphen n : Forall (fun c => c <> HYPHEN) (format_032x n).
Proof.
  unfold format_032x. apply Forall_map, Forall_forall. intros k _.
  apply hex_digit_not_hyphen, nibble_lt.
Qed.

Lemma regroup {A} (l : list A) :
  take 8 l ++ take 4 (drop 8 l) ++ take 4 (drop 12 l)
  ++ take 4 (drop 16 l) ++ drop 20 l = l.
Proof.
  replace (drop 20 l) with (drop 4 (drop 16 l)) by (by rewrite drop_drop).
  rewrite take_drop.
  replace (drop 16 l) with (drop 4 (drop 12 l)) by (by rewrite drop_drop).
  rewrite take_drop.
  replace (drop 12 l) with (drop 4 (drop 8 l)) by (by rewrite drop_drop).
  rewrite take_drop. apply take_drop.
Qed.

(** Without its hyphens, the text of a UUID is its digits. *)
Lemma to_str_replace u :
  Str.replace (to_str u) [HYPHEN] [] = format_032x u.
Proof.
  rewrite replace_char_empty. unfold to_str.
  pose proof (format_032x_no_hyphen u) as Hh.
  set (hex := format_032x u) in *.
  rewrite !filter_app. cbn [filter list_filter].
  rewrite !decide_False by (by intros H; apply H). cbn [app].
  rewrite !filter_all by auto using Forall_take, Forall_drop.
  apply regroup.
Qed.

(** An identifier is the 24 leading digits, in upper case. *)
Lemma id_of_uuid_digits u :
  id_of_uuid u =
    map (fun k => Str.upper_char (hex_digit (nibble u k)))
        (take 24 (reverse (seq 0 (hex_width u)))).
Proof.
  unfold id_of_uuid. rewrite to_str_replace. unfold Str.upper, format_032x.
  by rewrite <- !fmap_take, <- list_fmap_compose.
Qed.

Lemma id_of_uuid_length u : length (id_of_uuid u) = 24%nat.
Proof.
  rewrite id_of_uuid_digits, length_map, length_take, length_reverse, length_seq.
  pose proof (hex_width_ge u). lia.
Qed.

Lemma id_of_uuid_hex u : forallb is_upper_hex (id_of_uuid u) = true.
Proof.
  rewrite id_of_uuid_digits. apply forallb_forall. intros c Hc.
  apply in_map_iff in Hc as (k & <- & _).
  apply upper_hex_digit, nibble_lt.
Qed.
(** 128-bit values. *)
Lemma log2_lt_128 r : r < 2 ^ 128 -> N.log2 r < 128.
Proof.
  intros H. destruct (N.eq_dec r 0) as [->|Hr]; [done|].
  apply N.log2_lt_pow2; [lia|done].
Qed.

Lemma uuid4_log2 r : N.log2 r < 128 -> N.log2 (uuid4 r) < 128.
Proof.
  intros H. unfold uuid4. cbv zeta.
  rewrite N.log2_lor. apply N.max_lub_lt; [|by vm_compute].
  eapply N.le_lt_trans; [apply N.log2_le_mono, N.ldiff_le_l|].
  rewrite N.log2_lor. apply N.max_lub_lt; [|by vm_compute].
  eapply N.le_lt_trans; [apply N.log2_le_mono, N.ldiff_le_l|]. done.
Qed.

Lemma hex_width_128 u : N.log2 u < 128 -> hex_width u = 32%nat.
Proof.
  intros H. unfold hex_width.
  assert (N.log2 u / 4 < 32) by (apply N.Div0.div_lt_upper_bound; lia).
  lia.
Qed.

Lemma nibble_testbit u k j :
  j < 4 -> N.testbit (nibble u k) j = N.testbit u (j + 4 * N.of_nat k).
Proof.
  intros H. unfold nibble. rewrite N.land_spec, N.shiftr_spec by lia.
  change 15 with (N.ones 4). rewrite N.ones_spec_low by done.
  apply andb_true_r.
Qed.

Lemma nibble_leading u k :
  (8 <= k)%nat -> nibble u k = nibble (leading_bits u) (k - 8).
Proof.
  intros H. unfold nibble, leading_bits. rewrite N.shiftr_shiftr.
  do 2 f_equal. lia.
Qed.

Lemma In_reverse {A} (x : A) l : In x (reverse l) <-> In x l.
Proof. by rewrite <- !list_elem_of_In, elem_of_reverse. Qed.

(** Two 128-bit UUID values give the same identifier exactly when they
    agree on their leading 96 bits. *)
Lemma id_of_uuid_inj u u' :
  N.log2 u < 128 -> N.log2 u' < 128 ->
  id_of_uuid u = id_of_uuid u' <-> leading_bits u = leading_bits u'.
Proof.
  intros Hu Hu'. rewrite !id_of_uuid_digits, !hex_width_128 by done.
  change (take 24 (reverse (seq 0 32))) with (reverse (seq 8 24)).
  split.
  - intros H. apply N.bits_inj. intros i. unfold leading_bits.
    rewrite !N.shiftr_spec by lia.
    destruct (N.lt_ge_cases (i + 32) 128) as [Hi|Hi].
    + set (k := N.to_nat ((i + 32) / 4)).
      assert (Hk : In k (reverse (seq 8 24))).
      { apply In_reverse, in_seq.
        assert (8 <= (i + 32) / 4) by (apply N.div_le_lower_bound; lia).
        assert ((i + 32) / 4 < 32) by (apply N.Div0.div_lt_upper_bound; lia).
        lia. }
      assert (Hn : nibble u k = nibble u' k).
      { apply upper_hex_digit_inj; try apply nibble_lt.
        revert Hk. generalize (reverse (seq 8 24)) H. clear.
        intros l H Hk. induction l as [|a l IH]; [done|].
        injection H as H1 H2. destruct Hk as [->|Hk]; [done|by apply IH]. }
      apply (f_equal (fun x => N.testbit x ((i + 32) mod 4))) in Hn.
      rewrite !nibble_testbit in Hn by (by apply N.mod_lt).
      replace ((i + 32) mod 4 + 4 * N.of_nat k) with (i + 32) in Hn; [done|].
      unfold k. rewrite N2Nat.id.
      rewrite (N.div_mod (i + 32) 4) at 1 by done. lia.
    + rewrite !N.bits_above_log2 by lia. done.
  - intros H. apply map_ext_in. intros k Hk.
    apply In_reverse, in_seq in Hk.
    rewrite !(nibble_leading _ k) by lia. by rewrite H.
Qed.

Lemma new_id_inj r r' :
  r < 2 ^ 128 -> r' < 2 ^ 128 ->
  new_id r = new_id r' <-> leading_bits (uuid4 r) = leading_bits (uuid4 r').
Proof.
  intros H H'. apply id_of_uuid_inj; by apply uuid4_log2, log2_lt_128.
Qed.
End UuidFacts.

Lemma minted_ids_eq F B file_refs build_refs :
  dicts_of F B file_refs build_refs ->
  minted_ids file_refs build_refs = map F (seq 0 5) ++ map B (seq 0 5).
Proof.
  intros Hdicts.
  pose proof (Hdicts 0%nat _ eq_refl) as [HF0 HB0].
  pose proof (Hdicts 1%nat _ eq_refl) as [HF1 HB1].
  pose proof (Hdicts 2%nat _ eq_refl) as [HF2 HB2].
  pose proof (Hdicts 3%nat _ eq_refl) as [HF3 HB3].
  pose proof (Hdicts 4%nat _ eq_refl) as [HF4 HB4].
  cbn [name] in *.
  unfold minted_ids, files_to_add. cbn [omap list_omap name].
  by rewrite HF0, HF1, HF2, HF3, HF4, HB0, HB1, HB2, HB3, HB4.
Qed.

Lemma project_backup_ne : project_file <> backup_file.
Proof.
  unfold backup_file. intros H. apply (f_equal length) in H.
  rewrite length_app in H. vm_compute in H. discriminate H.
Qed.

(** ** Occurrences, and what a replacement cannot introduce *)

Section Occurs.
Implicit Types p s a b old : list N.

Lemma occurs_absent p s : absent p s <-> ~ occurs p s.
Proof.
  unfold absent. split.
  - intros H (a & b & ->).
    assert (Hin : (0 + length a)%nat ∈ find_all p 0 (a ++ p ++ b)).
    { apply find_all_elem. split; [rewrite length_app; lia|].
      rewrite drop_app_length. apply startswith_app. }
    rewrite H in Hin. by apply elem_of_nil in Hin.
  - intros H. destruct (find_all p 0 s) as [|i l] eqn:E; [done|].
    exfalso. apply H.
    assert (Hin : (0 + i)%nat ∈ find_all p 0 s) by (rewrite E; left).
    apply find_all_elem in Hin as [_ Hsw]. apply startswith_inv in Hsw.
    exists (take i s), (drop (length p) (drop i s)).
    by rewrite <- Hsw, take_drop.
Qed.

Lemma occurs_app_l p a b : occurs p a -> occurs p (a ++ b).
Proof. intros (x & y & ->). exists x, (y ++ b). by rewrite <- !app_assoc. Qed.

Lemma occurs_app_r p a b : occurs p b -> occurs p (a ++ b).
Proof. intros (x & y & ->). exists (a ++ x), y. by rewrite <- !app_assoc. Qed.

Lemma occurs_nil s : occurs [] s.
Proof. by exists [], s. Qed.

(** An occurrence cannot run across a character it does not contain. *)
Lemma occurs_sep p a c b :
  ~ In c p -> occurs p (a ++ c :: b) -> occurs p a \/ occurs p b.
Proof.
  intros Hc (x & y & H).
  apply app_eq_app in H as [l [[-> H]|[-> H]]].
  - symmetry in H. apply app_eq_app in H as [l' [[-> H]|[-> H]]].
    + left. by exists x, l'.
    + destruct l' as [|c' l'].
      * left. exists x, []. by rewrite !app_nil_r.
      * injection H as -> _. exfalso. apply Hc, in_app_iff. right. by left.
  - destruct l as [|c' l].
    + destruct p as [|c' p]; [left; apply occurs_nil|].
      injection H as -> _. exfalso. apply Hc. by left.
    + injection H as -> ->. right. by exists l, y.
Qed.

Section NoNew.
Variables (p mid : list N) (c1 c2 : N).
Hypothesis Hp : p <> [].
Hypothesis Hc1 : ~ In c1 p.
Hypothesis Hc2 : ~ In c2 p.
Hypothesis Hmid : ~ occurs p mid.

Lemma no_new_block a keep rest :
  occurs p (a ++ (keep ++ c1 :: mid ++ [c2]) ++ rest) ->
  occurs p (a ++ keep) \/ occurs p rest.
Proof.
  rewrite <- !app_assoc, app_assoc. cbn [app].
  intros [H|H]%occurs_sep; [by left| |done].
  rewrite <- app_assoc in H. cbn [app] in H.
  apply occurs_sep in H as [H|H]; [done|by right|done].
Qed.

(** Replacing every occurrence of a non-empty [old] by a prefix of
    itself followed by [c1], [mid] and [c2] brings no occurrence of
    [p] that was not there. *)
Lemma replace_scan_no_new old keep z :
  old <> [] -> old = keep ++ z ->
  forall n s a, (length s <= n)%nat ->
    occurs p (a ++ Str.replace_scan old (keep ++ c1 :: mid ++ [c2]) s 0) ->
    occurs p (a ++ s).
Proof.
  intros Hold Hk. induction n as [|n IH]; intros s a Hn.
  - destruct s; [done|simpl in Hn; lia].
  - destruct s as [|c s]; [done|].
    rewrite replace_scan_cons by done.
    destruct (Str.startswith old (c :: s)) eqn:E.
    + apply startswith_inv in E. set (t := drop (length old) (c :: s)) in *.
      assert (Ht : (length t <= n)%nat).
      { apply (f_equal length) in E. rewrite length_app in E.
        destruct old; [done|]. simpl in *. lia. }
      intros [H|H]%no_new_block.
      * rewrite E, Hk, <- !app_assoc, app_assoc. by apply occurs_app_l.
      * apply (IH t []) in H; [|done]. rewrite E.
        by apply occurs_app_r, occurs_app_r.
    + intros H. change (a ++ c :: ?x) with (a ++ [c] ++ x) in H.
      rewrite app_assoc in H. apply IH in H; [|simpl in Hn; lia].
      by rewrite <- app_assoc in H.
Qed.

Lemma replace_empty_no_new s a :
  occurs p (a ++ (c1 :: mid ++ [c2])
              ++ flat_map (fun c => c :: c1 :: mid ++ [c2]) s) ->
  occurs p (a ++ s).
Proof.
  revert a; induction s as [|c s IH]; intros a.
  - intros [H|H]%(no_new_block a []).
    + by rewrite app_nil_r in *.
    + destruct H as (x & y & H). by destruct x, p.
  - cbn [flat_map]. intros [H|H]%(no_new_block a []).
    + rewrite app_nil_r in H. by apply occurs_app_l.
    + change ((c :: ?n) ++ ?f) with ([c] ++ n ++ f) in H.
      apply IH in H. by apply occurs_app_r.
Qed.

Lemma replace_no_new s old keep z :
  old = keep ++ z -> ~ occurs p s ->
  ~ occurs p (Str.replace s old (keep ++ c1 :: mid ++ [c2])).
Proof.
  intros Hk Hs H. apply Hs. unfold Str.replace in H.
  destruct old as [|o old].
  - destruct keep; [|done]. cbn [app] in H.
    by apply (replace_empty_no_new s []).
  - by apply (replace_scan_no_new (o :: old) keep z ltac:(done) Hk
                (length s) s []).
Qed.
End NoNew.

(** ** Templates *)

Lemma may_start_sound p t s :
  fits t s -> Str.startswith p s = true -> may_start p t = true.
Proof.
  intros H. revert p. induction H as [|x c t s Hx _ IH]; intros [|a p]; try done.
  simpl. intros [Ha Hp]%andb_prop. apply N.eqb_eq in Ha as ->.
  rewrite (IH _ Hp), andb_true_r.
  destruct x; simpl in Hx; [subst; apply N.eqb_refl|done].
Qed.

Lemma may_occur_sound p t s :
  fits t s -> may_occur p t = false -> ~ occurs p s.
Proof.
  intros H Hm (a & b & ->). revert t H Hm.
  induction a as [|c a IH]; intros t H Hm.
  - pose proof (may_start_sound p t (p ++ b) H (startswith_app p b)) as Hs.
    destruct t; simpl in Hm; by rewrite Hs in Hm.
  - inversion H as [|x c' t' s' Hx Ht]; subst.
    simpl in Hm. apply orb_false_elim in Hm as [_ Hm]. by apply (IH t').
Qed.

Lemma fits_known l : fits (known l) l.
Proof. unfold fits, known. induction l; constructor; done. Qed.

Lemma fits_hex24 i :
  length i = 24%nat -> forallb is_upper_hex i = true -> fits hex24 i.
Proof.
  unfold fits, hex24. generalize 24%nat as n. intros n. revert n.
  induction i as [|c i IH]; intros [|n] Hn Hi; try done; try (by constructor).
  simpl in Hi. apply andb_prop in Hi as [Hc Hi]. cbn [replicate].
  constructor; [done|]. apply IH; [by injection Hn|done].
Qed.

Lemma fits_app t1 t2 s1 s2 : fits t1 s1 -> fits t2 s2 -> fits (t1 ++ t2) (s1 ++ s2).
Proof. apply Forall2_app. Qed.
End Occurs.

Section Blocks.
Variables F B : nat -> list N.
Hypothesis HF : valid_ids F.
Hypothesis HB : valid_ids B.

Local Ltac fits_tac :=
  cbv beta iota delta [concat map imap take drop files_to_add name Nat.add
    build_file_entry file_ref_entry child_entry sources_entry
    build_file_template file_ref_template child_template sources_template];
  repeat first
    [ apply fits_app
    | apply fits_known
    | apply fits_hex24; [apply HF || apply HB | apply HF || apply HB]
    | constructor ].

Lemma build_block_fits : fits build_block_template (build_block F B).
Proof. unfold build_block_template, build_block. fits_tac. Qed.

Lemma file_block_fits : fits file_block_template (file_block F).
Proof. unfold file_block_template, file_block. fits_tac. Qed.

Lemma services_block_fits : fits services_block_template (services_block F).
Proof. unfold services_block_template, services_block. fits_tac. Qed.

Lemma vc_block_fits : fits vc_block_template (vc_block F).
Proof. unfold vc_block_template, vc_block. fits_tac. Qed.

Lemma sources_block_fits : fits sources_block_template (sources_block B).
Proof. unfold sources_block_template, sources_block. fits_tac. Qed.
End Blocks.

Lemma free_of_In c p : free_of c p = true -> ~ In c p.
Proof.
  unfold free_of. intros H Hin.
  rewrite forallb_forall in H. apply H in Hin.
  by rewrite N.eqb_refl in Hin.
Qed.

Lemma fits_last T c s :
  fits (T ++ [Known c]) s -> exists mid, s = mid ++ [c] /\ fits T mid.
Proof.
  intros (mid & l & Hm & Hl & ->)%Forall2_app_inv_l.
  inversion Hl as [|x y t' l' Hx Hn]; subst. inversion Hn; subst.
  simpl in Hx. subst. by exists mid.
Qed.

Lemma fits_first T c s :
  fits (Known c :: T) s -> exists rest, s = c :: rest /\ fits T rest.
Proof.
  intros H. inversion H as [|x y t' l' Hx Hn]; subst.
  simpl in Hx. subst. by exists l'.
Qed.

(** An update of a record section brings no occurrence of a text that
    has no newline and cannot occur in the block. *)
Lemma update_section_absent p pat T block content :
  fits (T ++ [Known NL]) block ->
  may_occur p (T ++ [Known NL]) = false ->
  free_of NL p = true ->
  absent p content ->
  absent p (update pat (extend_section block) content).
Proof.
  intros Hfit Hocc Hnl Habs. unfold update.
  destruct (Re.search pat content) as [m|]; [|done].
  destruct (Re.m_group1 m) as [old|]; [|done].
  pose proof (may_occur_sound _ _ _ Hfit Hocc) as Hblock.
  apply fits_last in Hfit as (mid & -> & _).
  destruct (rstrip_prefix old) as (ws & Hold & _).
  apply occurs_absent. unfold extend_section.
  change ([NL] ++ mid ++ [NL]) with (NL :: mid ++ [NL]).
  apply (replace_no_new p mid NL NL) with (z := ws); try done.
  - intros ->. by destruct T.
  - by apply free_of_In.
  - by apply free_of_In.
  - intros H. apply Hblock. by apply occurs_app_l.
  - by apply occurs_absent.
Qed.

(** The same for an update of a list, whose block starts with a newline
    and ends with a comma. *)
Lemma update_list_absent p pat T block content :
  fits (Known NL :: T ++ [Known 44]) block ->
  may_occur p (Known NL :: T ++ [Known 44]) = false ->
  free_of NL p = true -> free_of 44 p = true ->
  absent p content ->
  absent p (update pat (extend_list block) content).
Proof.
  intros Hfit Hocc Hnl Hcomma Habs. unfold update.
  destruct (Re.search pat content) as [m|]; [|done].
  destruct (Re.m_group1 m) as [old|]; [|done].
  pose proof (may_occur_sound _ _ _ Hfit Hocc) as Hblock.
  apply fits_first in Hfit as (rest & -> & Hfit).
  apply fits_last in Hfit as (mid & -> & _).
  apply occurs_absent. unfold extend_list.
  apply (replace_no_new p mid NL 44) with (z := []); try done.
  - intros ->. by destruct T.
  - by apply free_of_In.
  - by apply free_of_In.
  - intros H. apply Hblock. apply (occurs_app_r _ [NL]). by apply occurs_app_l.
  - by rewrite app_nil_r.
  - by apply occurs_absent.
Qed.

(** ** Skipped updates *)




Lemma file_id_valid w : valid_ids (file_id w).
Proof. intros k. split; [apply id_of_uuid_length|apply id_of_uuid_hex]. Qed.

Lemma build_id_valid w : valid_ids (build_id w).
Proof. intros k. split; [apply id_of_uuid_length|apply id_of_uuid_hex]. Qed.

(** The blocks of the record sections end with a newline; those of the
    lists start with a newline and end with a comma. *)
Lemma build_block_template_shape :
  build_block_template = removelast build_block_template ++ [Known NL].
Proof. reflexivity. Qed.


Lemma services_block_template_shape :
  services_block_template
  = Known NL :: removelast (tail services_block_template) ++ [Known 44].
Proof. reflexivity. Qed.

Section AbsentAfter.
Variables (F B : nat -> list N) (p : list N).
Hypothesis HF : valid_ids F.
Hypothesis HB : valid_ids B.
Hypothesis Hnl : free_of NL p = true.

Lemma absent_after_build_files content :
  may_occur p build_block_template = false ->
  absent p content ->
  absent p (update PBXBuildFile (extend_section (build_block F B)) content).
Proof.
  intros Hocc. rewrite build_block_template_shape in Hocc.
  apply update_section_absent with (T := removelast build_block_template);
    try done.
  rewrite <- build_block_template_shape. by apply build_block_fits.
Qed.


Lemma absent_after_services content :
  may_occur p services_block_template = false ->
  free_of 44 p = true ->
  absent p content ->
  absent p (update CoreServices (extend_list (services_block F)) content).
Proof.
  intros Hocc Hcomma. rewrite services_block_template_shape in Hocc.
  apply update_list_absent
    with (T := removelast (tail services_block_template)); try done.
  rewrite <- services_block_template_shape. by apply services_block_fits.
Qed.
End AbsentAfter.

(** ** Updates that touch one place only *)

Lemma find_all_nil_length pos s : length (find_all [] pos s) = S (length s).
Proof.
  revert pos; induction s as [|c s IH]; intros pos; [done|].
  cbn [find_all Str.startswith app length]. by rewrite IH.
Qed.

Lemma captured_inv pat content old :
  captured pat content = Some old ->
  exists m, Re.search pat content = Some m /\ Re.m_group1 m = Some old.
Proof.
  unfold captured. destruct (Re.search pat content) as [m|]; [|done].
  intros H. by exists m.
Qed.

Lemma update_once pat ext content old :
  captured pat content = Some old -> occurs_once old content ->
  exists pre post,
    content = pre ++ old ++ post
    /\ update pat ext content = pre ++ ext old ++ post.
Proof.
  intros (m & Hs & Hg)%captured_inv Honce. unfold update. rewrite Hs, Hg.
  destruct old as [|o old].
  - unfold occurs_once in Honce. rewrite find_all_nil_length in Honce.
    destruct content; [|done]. exists [], []. split; [done|].
    unfold Str.replace. cbn [flat_map]. by rewrite !app_nil_r.
  - unfold occurs_once in Honce.
    destruct (find_all (o :: old) 0 content) as [|i [|??]] eqn:E; try done.
    destruct (replace_once content (o :: old) (ext (o :: old)) i) as [H1 H2];
      [done|done|].
    by exists (take i content), (drop (i + length (o :: old)) content).
Qed.

Lemma update_localized pat ext content :
  localized pat ext content (update pat ext content).
Proof.
  unfold localized. destruct (captured pat content) as [old|] eqn:E.
  - intros Honce. by apply update_once.
  - unfold update. unfold captured in E.
    destruct (Re.search pat content) as [m|]; [|done].
    cbn in E. by rewrite E.
Qed.

(** Where a text occurs once, its two sides are determined. *)
Lemma occurs_once_sides p s a b a' b' :
  occurs_once p s -> s = a ++ p ++ b -> s = a' ++ p ++ b' -> a = a' /\ b = b'.
Proof.
  intros Honce H H'.
  pose proof (occurs_once_split _ _ _ _ Honce H) as E.
  pose proof (occurs_once_split _ _ _ _ Honce H') as E'.
  rewrite E in E'. injection E' as Hlen.
  rewrite H in H'. apply app_inj_1 in H' as [-> H']; [|done].
  by apply app_inv_head in H' as ->.
Qed.

Lemma search_from_match r pos s m :
  Re.search_from r pos s = Some m ->
  exists pre s' pos', s = pre ++ s' /\ Re.match_at r pos' s' = Some m.
Proof.
  revert pos; induction s as [|c s IH]; intros pos; cbn [Re.search_from];
    destruct (Re.match_at r pos _) as [m'|] eqn:E; try done.
  - intros [= ->]. by exists [], [], pos.
  - intros [= ->]. by exists [], (c :: s), pos.
  - intros (pre & s' & pos' & -> & Hm)%IH. by exists (c :: pre), s', pos'.
Qed.

(** The list patterns capture up to a closing parenthesis, or to the end
    of the text. *)
Lemma list_shape_match_end H K pos s m :
  Re.match_at
    (Re.Group
       (Re.Cat (Re.Chars H)
          (Re.Cat (Re.Rep (Re.not_char 125) 1 true)
             (Re.Cat (Re.Chars K) (Re.Rep (Re.not_char 41) 0 true)))))
    pos s = Some m ->
  exists old post,
    s = old ++ post /\ Re.m_group1 m = Some old
    /\ (post = [] \/ exists t, post = 41 :: t).
Proof.
  intros E. unfold Re.match_at in E. cbn [Re.run] in E.
  destruct (Str.startswith H s) eqn:EH; [|done].
  apply startswith_inv in EH. set (s0 := drop (length H) s) in *.
  apply at_least_sound in E as (w1 & s1 & Hs1 & _ & _ & E).
  apply star_greedy_sound in E as (w2 & s2 & Hs2 & _ & E).
  destruct (Str.startswith K s2) eqn:EK; [|done].
  apply startswith_inv in EK. set (s3 := drop (length K) s2) in *.
  cbn [Re.at_least] in E.
  match type of E with
  | Re.star_greedy ?set ?k s3 = _ =>
      destruct (star_greedy_total set k s3) as (w4 & s4 & Hs4 & _ & Hend & E');
        [intros t; by eexists|]
  end.
  rewrite E' in E. injection E as <-. cbn [Re.m_group1].
  assert (Hs : s = (H ++ w1 ++ w2 ++ K ++ w4) ++ s4).
  { rewrite EH, Hs1, Hs2, EK, Hs4. by rewrite <- !app_assoc. }
  exists (H ++ w1 ++ w2 ++ K ++ w4), s4. split; [done|]. split.
  - f_equal. rewrite Hs at 1 2. by rewrite length_app, Nat.add_sub, take_app_length.
  - destruct s4 as [|c4 s4]; [by left|]. right. exists s4. f_equal.
    unfold Re.not_char in Hend. by apply negb_false_iff, N.eqb_eq in Hend.
Qed.

Lemma list_pattern_end x l content old :
  captured (list_pattern x l) content = Some old ->
  exists pre post,
    content = pre ++ old ++ post /\ (post = [] \/ exists t, post = 41 :: t).
Proof.
  intros (m & Hs & Hg)%captured_inv.
  apply search_from_match in Hs as (pre & s' & pos' & -> & Hm).
  apply list_shape_match_end in Hm as (old' & post & -> & Hg' & Hend).
  rewrite Hg in Hg'. injection Hg' as <-. by exists pre, post.
Qed.

Lemma section_pattern_markers x content old :
  captured (section_pattern x) content = Some old ->
  exists pre post,
    content = pre ++ begin_marker x ++ old ++ end_marker x ++ post.
Proof.
  intros (m & Hs & Hg)%captured_inv.
  apply section_pattern_sound in Hs as (pre & body & post & -> & Hg').
  rewrite Hg in Hg'. injection Hg' as <-. by exists pre, post.
Qed.

Lemma section_update_once x block content old :
  captured (section_pattern x) content = Some old ->
  occurs_once old content ->
  exists pre post,
    content = pre ++ begin_marker x ++ old ++ end_marker x ++ post
    /\ update (section_pattern x) (extend_section block) content
       = pre ++ begin_marker x ++ Str.rstrip old ++ [NL] ++ block
         ++ end_marker x ++ post.
Proof.
  intros Hc Honce.
  destruct (section_pattern_markers _ _ _ Hc) as (pre & post & Hcontent).
  destruct (update_once _ (extend_section block) _ _ Hc Honce)
    as (pre' & post' & Hcontent' & ->).
  exists pre, post. split; [done|].
  destruct (occurs_once_sides old content pre' post'
              (pre ++ begin_marker x) (end_marker x ++ post) Honce Hcontent')
    as [-> ->].
  { rewrite Hcontent. by rewrite <- !app_assoc. }
  unfold extend_section. by rewrite <- !app_assoc.
Qed.

Lemma list_update_once x l block content old :
  captured (list_pattern x l) content = Some old ->
  occurs_once old content ->
  exists pre post,
    content = pre ++ old ++ post
    /\ (post = [] \/ exists t, post = 41 :: t)
    /\ update (list_pattern x l) (extend_list block) content
       = pre ++ old ++ block ++ post.
Proof.
  intros Hc Honce.
  destruct (list_pattern_end _ _ _ _ Hc) as (pre & post & Hcontent & Hend).
  destruct (update_once _ (extend_list block) _ _ Hc Honce)
    as (pre' & post' & Hcontent' & ->).
  exists pre, post. split; [done|]. split; [done|].
  destruct (occurs_once_sides old content pre' post' pre post Honce Hcontent'
              Hcontent) as [-> ->].
  unfold extend_list. by rewrite <- !app_assoc.
Qed.

(** ** The captured text, and what replaces it, occur *)

Lemma occurs_tail p c s :
  occurs p (c :: s) -> Str.startswith p (c :: s) = false -> occurs p s.
Proof.
  intros (a & b & E) Hs. destruct a as [|x a].
  - cbn in E. rewrite E, startswith_app in Hs. done.
  - injection E as -> ->. by exists a, b.
Qed.

Lemma replace_occurs s old new :
  occurs old s -> occurs new (Str.replace s old new).
Proof.
  destruct old as [|x p].
  - intros _. cbn [Str.replace]. by exists [], (flat_map (fun c => c :: new) s).
  - cbn [Str.replace]. induction s as [|c s IH]; intros Ho.
    + destruct Ho as (a & b & E). by destruct a.
    + cbn [Str.replace_scan].
      destruct (Str.startswith (x :: p) (c :: s)) eqn:Hs.
      * by exists [], (Str.replace_scan (x :: p) new s (length (x :: p) - 1)).
      * apply (occurs_app_r _ [c]). apply IH. by eapply occurs_tail.
Qed.

Lemma derives_group_occurs r w g g' :
  derives r w g g' -> g' = g \/ exists v, g' = Some v /\ occurs v w.
Proof.
  induction 1 as [| |r1 r2 w1 w2 g g1 g2 _ IH1 _ IH2|r w g g1 _ _].
  - by left.
  - by left.
  - destruct IH2 as [->|(v & -> & Hv)].
    + destruct IH1 as [->|(v & -> & Hv)]; [by left|right].
      exists v. split; [done|by apply occurs_app_l].
    + right. exists v. split; [done|by apply occurs_app_r].
  - right. exists w. split; [done|]. exists [], []. by rewrite app_nil_r.
Qed.

Lemma captured_occurs pat content old :
  captured pat content = Some old -> occurs old content.
Proof.
  intros (m & Hm & Hg)%captured_inv.
  apply search_from_sound in Hm as (a & w & b & g & -> & Hd & ->).
  cbn in Hg. subst g.
  apply derives_group_occurs in Hd as [?|(v & [= <-] & Hv)]; [done|].
  apply occurs_app_r, occurs_app_l, Hv.
Qed.

(** ** UTF-8 *)

Section Utf8Facts.
Import Utf8.

Local Ltac bounds :=
  repeat match goal with
         | H : (_ && _) = true |- _ => apply andb_prop in H as [? ?]
         | H : (_ <=? _) = true |- _ => apply N.leb_le in H
         | H : (_ <? _) = true |- _ => apply N.ltb_lt in H
         | H : (_ <? _) = false |- _ => apply N.ltb_ge in H
         | H : (_ <=? _) = false |- _ => apply N.leb_gt in H
         | H : (if ?a =? ?b then _ else true) = true |- _ =>
             destruct (N.eqb_spec a b)
         | H : (true = true) |- _ => clear H
         end.

Local Ltac euclid := Z.to_euclidean_division_equations; lia.

Lemma decode_char_encode bs c r :
  decode_char bs = Some (c, r) ->
  exists e, encode_char c = Some e /\ bs = e ++ r /\ e <> [].
Proof.
  unfold decode_char. destruct bs as [|b0 bs]; [done|].
  destruct (b0 <? 0x80) eqn:H0.
  { intros [= <- <-]. exists [b0]. unfold encode_char. by rewrite H0. }
  destruct (b0 <? 0xC2) eqn:H1; [done|].
  destruct (b0 <? 0xE0) eqn:H2.
  { destruct bs as [|b1 bs]; [done|]. destruct (cont b1) eqn:Hc1; [|done].
    intros [= <- <-]. unfold cont in *. bounds.
    exists [b0; b1]. unfold encode_char.
    rewrite (proj2 (N.ltb_ge _ _)) by lia.
    rewrite (proj2 (N.ltb_lt _ _)) by lia.
    repeat split; [|done]. do 2 f_equal; [zify; euclid|f_equal; zify; euclid]. }
  destruct (b0 <? 0xF0) eqn:H3.
  { destruct bs as [|b1 [|b2 bs]]; [done|done|].
    destruct (cont b1 && cont b2 && second3 b0 b1) eqn:Hc; [|done].
    intros [= <- <-]. unfold cont, second3 in *. bounds;
    exists [b0; b1; b2]; unfold encode_char;
    rewrite (proj2 (N.ltb_ge _ 0x80)) by lia;
    rewrite (proj2 (N.ltb_ge _ 0x800)) by lia;
    (replace ((0xD800 <=? _) && (_ <=? 0xDFFF)) with false
      by (symmetry; apply andb_false_iff;
          rewrite N.leb_gt, N.leb_gt; lia));
    rewrite (proj2 (N.ltb_lt _ 0x10000)) by lia;
    (repeat split; [|done]);
    (do 2 f_equal; [zify; euclid|f_equal; [zify; euclid|f_equal; zify; euclid]]). }
  destruct (b0 <? 0xF5) eqn:H4; [|done].
  destruct bs as [|b1 [|b2 [|b3 bs]]]; [done|done|done|].
  destruct (cont b1 && cont b2 && cont b3 && second4 b0 b1) eqn:Hc; [|done].
  intros [= <- <-]. unfold cont, second4 in *. bounds;
  exists [b0; b1; b2; b3]; unfold encode_char;
  rewrite (proj2 (N.ltb_ge _ 0x80)) by lia;
  rewrite (proj2 (N.ltb_ge _ 0x800)) by lia;
  (replace ((0xD800 <=? _) && (_ <=? 0xDFFF)) with false
    by (symmetry; apply andb_false_iff;
        rewrite N.leb_gt, N.leb_gt; lia));
  rewrite (proj2 (N.ltb_ge _ 0x10000)) by lia;
  rewrite (proj2 (N.ltb_lt _ 0x110000)) by lia;
  (repeat split; [|done]);
  (do 2 f_equal;
   [zify; euclid|f_equal; [zify; euclid|f_equal; [zify; euclid|f_equal; zify; euclid]]]).
Qed.
End Utf8Facts.

Lemma decode_from_encode n : forall bs s,
  Utf8.decode_from n bs = Some s -> Utf8.encode s = Some bs.
Proof.
  induction n as [|n IH]; intros [|b bs] s; cbn [Utf8.decode_from];
    try (by intros [= <-]).
  destruct (Utf8.decode_char (b :: bs)) as [[c r]|] eqn:Hc; [|done].
  destruct (Utf8.decode_from n r) as [s'|] eqn:Hr; [|done].
  intros [= <-].
  apply decode_char_encode in Hc as (e & He & -> & _).
  cbn [Utf8.encode]. by rewrite He, (IH _ _ Hr).
Qed.

(** Bytes that decode are the encoding of what they decode to. *)
Lemma decode_encode bs s :
  Utf8.decode bs = Some s -> Utf8.encode s = Some bs.
Proof. apply decode_from_encode. Qed.

Lemma encode_Forall s :
  is_Some (Utf8.encode s) <-> Forall (fun c => is_Some (Utf8.encode_char c)) s.
Proof.
  induction s as [|c s IH]; cbn [Utf8.encode].
  - split; [constructor|by eexists].
  - rewrite Forall_cons, <- IH.
    destruct (Utf8.encode_char c), (Utf8.encode s); split;
      try (by intros [? ?]); try (by intros [[? ?] [? ?]]); by eexists.
Qed.

Lemma encode_char_ascii c : c < 128 -> is_Some (Utf8.encode_char c).
Proof.
  intros H. unfold Utf8.encode_char.
  rewrite (proj2 (N.ltb_lt _ _)) by done. by eexists.
Qed.

(** ** What stays true of every character *)

Section Everywhere.
Variable P : N -> Prop.

Lemma universal_newlines_Forall s :
  P NL -> Forall P s -> Forall P (universal_newlines s).
Proof.
  intros HNL. remember (length s) as n eqn:Hn.
  revert s Hn. induction n as [n IH] using lt_wf_ind. intros s -> Hs.
  destruct s as [|c s]; [done|]. cbn [universal_newlines].
  apply Forall_cons in Hs as [Hc Hs].
  destruct (c =? 13).
  - constructor; [done|]. destruct s as [|d s]; [done|].
    apply Forall_cons in Hs as [Hd Hs'].
    destruct (d =? 10).
    + apply (IH (length s)); [cbn; lia|done|done].
    + apply (IH (length (d :: s))); [cbn; lia|done|by constructor].
  - constructor; [done|]. apply (IH (length s)); [cbn; lia|done|done].
Qed.

Lemma replace_scan_Forall old new s : forall k,
  Forall P s -> Forall P new -> Forall P (Str.replace_scan old new s k).
Proof.
  induction s as [|c s IH]; intros k Hs Hnew; [done|].
  apply Forall_cons in Hs as [Hc Hs]. cbn [Str.replace_scan].
  destruct k as [|k]; [|by apply IH].
  destruct (Str.startswith old (c :: s)).
  - apply Forall_app. split; [done|by apply IH].
  - constructor; [done|by apply IH].
Qed.

Lemma replace_Forall s old new :
  Forall P s -> Forall P new -> Forall P (Str.replace s old new).
Proof.
  intros Hs Hnew. destruct old as [|x old]; cbn [Str.replace].
  - apply Forall_app. split; [done|].
    induction Hs as [|c s Hc _ IH]; [done|]. cbn [flat_map].
    constructor; [done|]. apply Forall_app. by split.
  - by apply replace_scan_Forall.
Qed.

Lemma occurs_Forall p s : occurs p s -> Forall P s -> Forall P p.
Proof.
  intros (a & b & ->) H. apply Forall_app in H as [_ H].
  by apply Forall_app in H as [H _].
Qed.

Lemma update_Forall pat ext content :
  (forall old, Forall P old -> Forall P (ext old)) ->
  Forall P content -> Forall P (update pat ext content).
Proof.
  intros Hext Hc. unfold update.
  destruct (Re.search pat content) as [m|] eqn:Hm; [|done].
  destruct (Re.m_group1 m) as [old|] eqn:Hg; [|done].
  apply replace_Forall; [done|]. apply Hext.
  apply (occurs_Forall old content); [|done].
  apply (captured_occurs pat). unfold captured. rewrite Hm. exact Hg.
Qed.

Lemma extend_section_Forall block old :
  P NL -> Forall P block -> Forall P old -> Forall P (extend_section block old).
Proof.
  intros HNL Hb Ho. unfold extend_section.
  destruct (rstrip_prefix old) as (ws & E & _). rewrite E in Ho.
  apply Forall_app in Ho as [Ho _].
  apply Forall_app. split; [done|]. apply Forall_app. split; [|done].
  by constructor.
Qed.

Lemma extend_list_Forall block old :
  Forall P block -> Forall P old -> Forall P (extend_list block old).
Proof. intros Hb Ho. apply Forall_app. by split. Qed.

(** [P] holds of the hexadecimal digits, and of the characters that
    pass the test [ok]. *)
Variable ok : N -> bool.
Hypothesis Hok : forall c, ok c = true -> P c.
Hypothesis Hhex : forall c, is_upper_hex c = true -> P c.

Lemma fits_Forall t s :
  fits t s -> forallb (ok_piece ok) t = true -> Forall P s.
Proof.
  induction 1 as [|x c t s Hx _ IH]; [done|]. cbn [forallb].
  intros [Hh Ht]%andb_prop. constructor; [|by apply IH].
  destruct x as [k|]; cbn in Hx, Hh.
  - subst c. by apply Hok.
  - by apply Hhex.
Qed.

Hypothesis Htemplates :
  forallb (ok_piece ok)
    (Known NL :: build_block_template ++ file_block_template
       ++ services_block_template ++ vc_block_template
       ++ sources_block_template) = true.

Lemma patched_Forall F B content :
  valid_ids F -> valid_ids B ->
  Forall P content -> Forall P (patched F B content).
Proof.
  intros HF HB Hc.
  cbn [forallb] in Htemplates. rewrite !forallb_app in Htemplates.
  destruct (andb_prop _ _ Htemplates) as [HNL%Hok H1].
  destruct (andb_prop _ _ H1) as [Hb H2].
  destruct (andb_prop _ _ H2) as [Hf H3].
  destruct (andb_prop _ _ H3) as [Hs H4].
  destruct (andb_prop _ _ H4) as [Hv Hsrc].
  unfold patched, updates, apply_updates. cbn [foldl fst snd].
  apply update_Forall;
    [intros old; apply extend_list_Forall;
     by apply (fits_Forall _ _ (sources_block_fits _ HB))|].
  apply update_Forall;
    [intros old; apply extend_list_Forall;
     by apply (fits_Forall _ _ (vc_block_fits _ HF))|].
  apply update_Forall;
    [intros old; apply extend_list_Forall;
     by apply (fits_Forall _ _ (services_block_fits _ HF))|].
  apply update_Forall;
    [intros old; apply extend_section_Forall; [done|];
     by apply (fits_Forall _ _ (file_block_fits _ HF))|].
  apply update_Forall;
    [intros old; apply extend_section_Forall; [done|];
     by apply (fits_Forall _ _ (build_block_fits _ _ HF HB))|].
  done.
Qed.
End Everywhere.

Lemma upper_hex_ascii c : is_upper_hex c = true -> c < 128.
Proof.
  unfold is_upper_hex. intros [H|H]%orb_prop;
    apply andb_prop in H as [_ H]; apply N.leb_le in H; lia.
Qed.

(** The text a run writes can be encoded. *)
Lemma patched_encodes w bytes text :
  Utf8.decode bytes = Some text ->
  is_Some (Utf8.encode (patched (file_id w) (build_id w)
                          (universal_newlines text))).
Proof.
  intros Hd. apply encode_Forall.
  apply (patched_Forall _ (fun c => c <? 128));
    [intros c Hc; by apply encode_char_ascii, N.ltb_lt
    |intros c Hc; by apply encode_char_ascii, upper_hex_ascii
    |reflexivity|apply file_id_valid|apply build_id_valid|].
  apply universal_newlines_Forall; [by eexists|].
  apply encode_Forall. rewrite (decode_encode _ _ Hd). by eexists.
Qed.

(** Reading turns every carriage return into a newline, or drops it. *)
Lemma universal_newlines_no_cr s :
  Forall (fun c => c <> 13) (universal_newlines s).
Proof.
  remember (length s) as n eqn:Hn.
  revert s Hn. induction n as [n IH] using lt_wf_ind. intros s ->.
  destruct s as [|c s]; [done|]. cbn [universal_newlines].
  destruct (N.eqb_spec c 13) as [->|Hc].
  - constructor; [done|]. destruct s as [|d s]; [done|].
    destruct (d =? 10).
    + apply (IH (length s)); [cbn; lia|done].
    + apply (IH (length (d :: s))); [cbn; lia|done].
  - constructor; [done|]. apply (IH (length s)); [cbn; lia|done].
Qed.


(** The text a run writes holds no carriage return. *)
Lemma patched_no_cr w text :
  Forall (fun c => c <> 13)
    (patched (file_id w) (build_id w) (universal_newlines text)).
Proof.
  apply (patched_Forall _ (fun c => negb (c =? 13)));
    [intros c Hc; by apply N.eqb_neq, negb_true_iff
    |intros c Hc ->; done
    |reflexivity|apply file_id_valid|apply build_id_valid
    |apply universal_newlines_no_cr].
Qed.

Lemma nonblank_universal_newlines s :
  nonblank (universal_newlines s) = nonblank s.
Proof.
  remember (length s) as n eqn:Hn.
  revert s Hn. induction n as [n IH] using lt_wf_ind. intros s ->.
  destruct s as [|c s]; [done|]. cbn [universal_newlines].
  unfold nonblank in *.
  destruct (N.eqb_spec c 13) as [->|Hc].
  - rewrite !filter_cons. cbn [decide_rel]. 
    rewrite !decide_False by (by vm_compute).
    destruct s as [|d s]; [done|].
    destruct (N.eqb_spec d 10) as [->|Hd].
    + rewrite filter_cons, decide_False by (by vm_compute).
      apply (IH (length s)); [cbn; lia|done].
    + apply (IH (length (d :: s))); [cbn; lia|done].
  - rewrite !filter_cons. rewrite (IH (length s)); [done|cbn; lia|done].
Qed.

(** ** The run, step by step *)

Lemma bind_result {A B} (m : M A) (f : A -> M B) w :
  (m ≫= f) w =
    match m w with
    | (Ok a, w') => f a w'
    | (Raise e, w') => (Raise e, w')
    end.
Proof. reflexivity. Qed.

Lemma target_ne_project w : backup_target w <> project_file.
Proof.
  unfold backup_target. destruct (is_dir (os w) backup_file);
    intros E; vm_compute in E; discriminate E.
Qed.

Lemma read_bytes_manifest w bytes text :
  manifest_holds w bytes text -> read_bytes project_file w = (Ok bytes, w).
Proof.
  intros (Hd & Hf & Hr & _). unfold read_bytes. by rewrite Hd, Hf, Hr.
Qed.

Lemma open_read_ok w bytes text :
  manifest_holds w bytes text ->
  open_read project_file w = (Ok (universal_newlines text), w).
Proof.
  intros H. unfold open_read.
  rewrite (bind_ok _ _ _ _ _ (read_bytes_manifest _ _ _ H)).
  destruct H as (_ & _ & _ & ->). done.
Qed.

(** Reading changes nothing, whatever its outcome. *)
Lemma open_read_world path w : (open_read path w).2 = w.
Proof.
  unfold open_read. rewrite bind_result. unfold read_bytes.
  destruct (is_dir (os w) path); [done|].
  destruct (files w !! path) as [data|]; [|done].
  destruct (can_read (perm (os w) path)); [|done].
  by destruct (Utf8.decode data).
Qed.

Lemma truncate_result path w :
  truncate path w =
    if may_write w path
    then (Ok tt, World (<[path := []]> (files w)) (os w) (entropy w)
                       (draws w) (stdout w))
    else (Raise (if is_dir (os w) path
                 then IsADirectoryError else PermissionError), w).
Proof.
  unfold truncate, may_write. destruct (is_dir (os w) path); [done|].
  cbn [negb andb].
  by destruct (match files w !! path with
               | Some _ => can_write (perm (os w) path)
               | None => creatable (os w) path
               end).
Qed.

(** The backup copy, case by case. *)
Lemma shutil_copy_result w bytes text :
  manifest_holds w bytes text ->
  shutil_copy project_file backup_file w =
    if same_file (os w) project_file (backup_target w)
    then (Raise SameFileError, w)
    else if may_write w (backup_target w)
    then match room (os w) (backup_target w) with
         | Some n =>
             if (n <? length bytes)%nat
             then (Raise OSError,
                   World (<[backup_target w := take n bytes]> (files w))
                         (os w) (entropy w) (draws w) (stdout w))
             else mode_copied w bytes
         | None => mode_copied w bytes
         end
    else (Raise (if is_dir (os w) (backup_target w)
                 then IsADirectoryError else PermissionError), w).
Proof.
  intros H. unfold shutil_copy. rewrite bind_result. unfold isdir at 1.
  fold (backup_target w). cbv zeta. rewrite bind_result.
  unfold copyfile.
  rewrite bool_decide_eq_false_2
    by (intros E; by apply (target_ne_project w)).
  cbn [orb].
  destruct (same_file (os w) project_file (backup_target w)); [done|].
  rewrite (bind_ok _ _ _ _ _ (read_bytes_manifest _ _ _ H)).
  rewrite bind_result, truncate_result.
  destruct (may_write w (backup_target w)); [|done].
  unfold write_bytes. cbn [os files entropy draws stdout].
  destruct (room (os w) (backup_target w)) as [n|];
    [destruct (n <? length bytes)%nat|];
    cbv beta iota zeta delta [mbind M_bind copymode copied mode_copied files
                               os entropy draws stdout];
    try destruct (may_chmod (os w) (backup_target w));
    by rewrite insert_insert_eq.
Qed.

(** The write of the manifest, case by case, in a world in which it is
    there. *)
Lemma open_write_result w text data old :
  Utf8.encode text = Some data ->
  is_dir (os w) project_file = false ->
  files w !! project_file = Some old ->
  open_write project_file text w =
    if can_write (perm (os w) project_file)
    then match room (os w) project_file with
         | Some n =>
             if (n <? length data)%nat
             then (Raise OSError,
                   World (<[project_file := take n data]> (files w))
                         (os w) (entropy w) (draws w) (stdout w))
             else (Ok tt, World (<[project_file := data]> (files w))
                                (os w) (entropy w) (draws w) (stdout w))
         | None => (Ok tt, World (<[project_file := data]> (files w))
                                 (os w) (entropy w) (draws w) (stdout w))
         end
    else (Raise PermissionError, w).
Proof.
  intros He Hd Hf. unfold open_write. rewrite bind_result, truncate_result.
  unfold may_write. rewrite Hd, Hf, He. cbn [negb andb].
  destruct (can_write (perm (os w) project_file)); [|done].
  unfold write_bytes. cbn [os files entropy draws stdout].
  destruct (room (os w) project_file) as [n|];
    [destruct (n <? length data)%nat|];
    by rewrite insert_insert_eq.
Qed.

(** A run whose read fails stops there, and nothing has changed. *)
Lemma run_read_fails w e :
  (open_read project_file w).1 = Raise e ->
  add_files_to_xcode_project w = (Raise e, w).
Proof.
  intros H. unfold add_files_to_xcode_project. rewrite bind_result.
  pose proof (open_read_world project_file w) as Hw.
  destruct (open_read project_file w) as [[c|e'] w']; cbn in *; [done|].
  congruence.
Qed.

(** A run whose backup copy fails stops there. *)
Lemma run_copy_fails w bytes text e w' :
  manifest_holds w bytes text ->
  shutil_copy project_file backup_file w = (Raise e, w') ->
  add_files_to_xcode_project w = (Raise e, w').
Proof.
  intros H Hc. unfold add_files_to_xcode_project.
  rewrite (bind_ok _ _ _ _ _ (open_read_ok _ _ _ H)).
  by apply bind_raise.
Qed.

(** A run whose backup copy succeeds, case by case. *)
Lemma run_copied w bytes text written :
  manifest_holds w bytes text ->
  shutil_copy project_file backup_file w = (Ok tt, copied w bytes) ->
  Utf8.encode (patched (file_id w) (build_id w) (universal_newlines text))
    = Some written ->
  add_files_to_xcode_project w =
    if can_write (perm (os w) project_file)
    then match room (os w) project_file with
         | Some n =>
             if (n <? length written)%nat
             then (Raise OSError,
                   World (<[project_file := take n written]>
                            (<[backup_target w := bytes]> (files w)))
                         (chmod (backup_target w) (perm (os w) project_file)
                            (os w))
                         (entropy w) (draws w + 10) (stdout w))
             else (Ok tt, world_after w bytes written)
         | None => (Ok tt, world_after w bytes written)
         end
    else (Raise PermissionError, drawn w bytes).
Proof.
  intros H Hc He. unfold add_files_to_xcode_project.
  rewrite (bind_ok _ _ _ _ _ (open_read_ok _ _ _ H)).
  rewrite (bind_ok _ _ _ _ _ Hc).
  destruct (generate_uuids_spec (copied w bytes)) as (fr & br & Hg & Hd & _).
  rewrite (bind_ok _ _ _ _ _ Hg).
  cbn [copied files os entropy draws stdout] in *.
  unfold lift at 1.
  change (file_id (copied w bytes)) with (file_id w) in Hd.
  change (build_id (copied w bytes)) with (build_id w) in Hd.
  rewrite (patch_eq _ _ _ _ Hd).
  erewrite bind_ok by reflexivity.
  destruct H as (Hdir & Hf & _ & _).
  rewrite bind_result.
  rewrite (open_write_result _ _ written bytes He);
    [|done|by cbn [files]; rewrite lookup_insert_ne by apply target_ne_project].
  cbn [files os entropy draws stdout chmod perm room].
  rewrite bool_decide_eq_false_2
    by (intros E; by apply (target_ne_project w)).
  destruct (can_write (perm (os w) project_file)); [|done].
  assert (forall fs,
    (print (lit "Added missing files to Xcode project:");;
     for_in files_to_add
       (fun _ file_info => print (lit "  - " ++ name file_info)) tt)
      (World fs (chmod (backup_target w) (perm (os w) project_file) (os w))
         (entropy w) (draws w + 10) (stdout w))
    = (Ok tt, World fs (chmod (backup_target w) (perm (os w) project_file) (os w))
                (entropy w) (draws w + 10) (stdout w ++ summary))) as Hprint.
  { intros fs. erewrite bind_ok by reflexivity.
    cbn [files os entropy draws stdout]. apply print_summary. }
  destruct (room (os w) project_file) as [n|]; [|apply Hprint].
  destruct (n <? length written)%nat; [done|apply Hprint].
Qed.

(** A run that the operating system lets through. *)
Lemma run_ok w bytes text :
  goes_through w bytes text ->
  exists written,
    Utf8.encode (patched (file_id w) (build_id w) (universal_newlines text))
      = Some written
    /\ add_files_to_xcode_project w = (Ok tt, world_after w bytes written).
Proof.
  intros (H & Hsame & Hmay & Hroom & Hch & Hw & Hroom').
  destruct (patched_encodes w bytes text) as [written He];
    [by destruct H as (_ & _ & _ & ?)|].
  exists written. split; [done|].
  rewrite (run_copied w bytes text written H); [by rewrite Hw, Hroom'| |done].
  rewrite (shutil_copy_result w bytes text H), Hsame, Hmay, Hroom.
  unfold mode_copied. by rewrite Hch.
Qed.

(** A run that reads the manifest, case by case. *)
Lemma run_result w bytes text written :
  manifest_holds w bytes text ->
  Utf8.encode (patched (file_id w) (build_id w) (universal_newlines text))
    = Some written ->
  add_files_to_xcode_project w = after_read w bytes written.
Proof.
  intros H He. pose proof (shutil_copy_result w bytes text H) as Hc.
  unfold after_read, after_bytes. unfold mode_copied in Hc.
  destruct (same_file (os w) project_file (backup_target w));
    [by apply (run_copy_fails w bytes text)|].
  destruct (may_write w (backup_target w));
    [|by apply (run_copy_fails w bytes text)].
  destruct (room (os w) (backup_target w)) as [n|];
    [destruct (n <? length bytes)%nat;
     [by apply (run_copy_fails w bytes text)|]|];
    (destruct (may_chmod (os w) (backup_target w));
     [by apply (run_copied w bytes text)
     |by apply (run_copy_fails w bytes text)]).
Qed.

(** A read that succeeds has found a manifest that decodes. *)
Lemma open_read_inv w content w' :
  open_read project_file w = (Ok content, w') ->
  exists bytes text,
    manifest_holds w bytes text /\ content = universal_newlines text.
Proof.
  unfold open_read. rewrite bind_result. unfold read_bytes.
  destruct (is_dir (os w) project_file) eqn:Hd; [done|].
  destruct (files w !! project_file) as [bytes|] eqn:Hf; [|done].
  destruct (can_read (perm (os w) project_file)) eqn:Hr; [|done].
  destruct (Utf8.decode bytes) as [text|] eqn:Hu; [|done].
  intros [= <- <-]. by exists bytes, text.
Qed.

(** Every run either fails at the read, with the world as it was, or
    has read the manifest. *)
Lemma run_inv w :
  (exists e, (open_read project_file w).1 = Raise e
             /\ add_files_to_xcode_project w = (Raise e, w)
             /\ In e [FileNotFoundError; IsADirectoryError; PermissionError;
                      UnicodeDecodeError])
  \/ (exists bytes text written,
        manifest_holds w bytes text
        /\ Utf8.encode (patched (file_id w) (build_id w)
                          (universal_newlines text)) = Some written
        /\ add_files_to_xcode_project w = after_read w bytes written).
Proof.
  destruct (open_read project_file w) as [[content|e] w'] eqn:Hr.
  - right. apply open_read_inv in Hr as (bytes & text & H & _).
    destruct (patched_encodes w bytes text) as [written He];
      [by destruct H as (_ & _ & _ & ?)|].
    exists bytes, text, written. split; [done|]. split; [done|].
    by apply (run_result w bytes text).
  - left. exists e. split; [done|]. split.
    + apply run_read_fails. by rewrite Hr.
    + revert Hr. unfold open_read. rewrite bind_result. unfold read_bytes.
      destruct (is_dir (os w) project_file).
      { destruct (can_read (perm (os w) project_file)); intros [= <- _];
          cbn; tauto. }
      destruct (files w !! project_file) as [bytes|];
        [|intros [= <- _]; cbn; tauto].
      destruct (can_read (perm (os w) project_file));
        [|intros [= <- _]; cbn; tauto].
      destruct (Utf8.decode bytes); [done|]. intros [= <- _]. cbn. tauto.
Qed.

(** A run that ends well was let through. *)
Lemma run_ok_inv w :
  (add_files_to_xcode_project w).1 = Ok tt ->
  exists bytes text written,
    manifest_holds w bytes text
    /\ same_file (os w) project_file (backup_target w) = false
    /\ may_write w (backup_target w) = true
    /\ can_write (perm (os w) project_file) = true
    /\ Utf8.encode (patched (file_id w) (build_id w)
                      (universal_newlines text)) = Some written
    /\ add_files_to_xcode_project w = (Ok tt, world_after w bytes written).
Proof.
  destruct (run_inv w) as [(e & _ & -> & _)|(bytes & text & written & H & He & ->)];
    [done|].
  unfold after_read, after_bytes, after_copy.
  destruct (same_file (os w) project_file (backup_target w)); [done|].
  destruct (may_write w (backup_target w)); [|done].
  assert (forall r : result unit * world,
    (if can_write (perm (os w) project_file)
     then r else (Raise PermissionError, drawn w bytes)).1 = Ok tt ->
    can_write (perm (os w) project_file) = true) as Hcw.
  { intros r. by destruct (can_write (perm (os w) project_file)). }
  intros Hok. exists bytes, text, written.
  split; [done|]. split; [done|]. split; [done|].
  destruct (room (os w) (backup_target w)) as [n|];
    [destruct (n <? length bytes)%nat; [done|]|];
    (destruct (may_chmod (os w) (backup_target w)); [|done]);
    (split; [by apply Hcw in Hok|]); (split; [done|]);
    destruct (can_write (perm (os w) project_file)); try done;
    destruct (room (os w) project_file) as [k|]; try done;
    by destruct (k <? length written)%nat.
Qed.

Lemma world_of_goes_through manifest text rand :
  Utf8.decode manifest = Some text ->
  goes_through (world_of manifest rand) manifest text.
Proof.
  intros H. by repeat split.
Qed.

(** ** Auxiliary facts for the claims *)

Lemma NoDup_map_iff {A B C} (f : A -> B) (g : A -> C) (l : list A) :
  (forall x y, In x l -> In y l -> (f x = f y <-> g x = g y)) ->
  NoDup (map f l) <-> NoDup (map g l).
Proof.
  induction l as [|a l IH]; intros H; [split; intros; constructor|].
  cbn [map]. rewrite !NoDup_cons, IH by (intros; apply H; by right).
  assert (E : f a ∈ map f l <-> g a ∈ map g l).
  { rewrite !list_elem_of_In, !in_map_iff.
    split; intros (y & Hy & Hin); exists y; (split; [|done]).
    - apply (H y a); [by right|by left|done].
    - apply (H y a); [by right|by left|done]. }
  by rewrite E.
Qed.

Lemma generate_uuids_random_only w1 w2 :
  entropy w1 = entropy w2 -> draws w1 = draws w2 ->
  (generate_uuids w1).1 = (generate_uuids w2).1.
Proof.
  destruct w1 as [fs1 wr1 e1 d1 out1], w2 as [fs2 wr2 e2 d2 out2].
  cbn [entropy draws]. intros -> ->.
  unfold generate_uuids, files_to_add.
  cbv beta iota zeta delta [for_in mbind M_bind mret M_ret uuid_uuid4 name
       files os entropy draws stdout fst].
  reflexivity.
Qed.

Lemma update_unmatched pat ext content :
  captured pat content = None -> update pat ext content = content.
Proof.
  intros H. pose proof (update_localized pat ext content) as Hl.
  unfold localized in Hl. by rewrite H in Hl.
Qed.

(** ** The model at work *)

Example new_id_zero : Uuid.new_id 0 = lit "000000000000400080000000".
Proof. reflexivity. Qed.

Example new_id_ones :
  Uuid.new_id (2 ^ 128 - 1) = lit "FFFFFFFFFFFF4FFFBFFFFFFF".
Proof. reflexivity. Qed.

Example replace_empty_old :
  Str.replace (lit "abc") [] (lit "-") = lit "-a-b-c-".
Proof. reflexivity. Qed.

Example replace_leftmost_first :
  Str.replace (lit "aaaa") (lit "aa") (lit "b") = lit "bb"
  /\ Str.replace (lit "aaa") (lit "aa") (lit "b") = lit "ba".
Proof. split; reflexivity. Qed.

Example rstrip_blanks :
  Str.rstrip (lit " a b \t\n") = lit " a b" /\ Str.rstrip (lit "\n\t") = [].
Proof. split; reflexivity. Qed.

Example search_is_lazy_then_leftmost :
  captured (section_pattern (lit "X"))
    (lit "/* Begin X section */a/* End X section */b/* End X section */")
  = Some (lit "a")
  /\ captured (list_pattern (lit "G") (lit "children"))
       (lit "/* G */ = {children = (children = (x, y) z")
     = Some (lit "/* G */ = {children = (children = (x, y").
Proof. split; reflexivity. Qed.

Example sample_ids :
  map (file_id (world_of sample_manifest distinct_draws)) (seq 0 5)
  = [ lit "000000100000400080000000"; lit "000000300000400080000000";
      lit "000000500000400080000000"; lit "000000700000400080000000";
      lit "000000900000400080000000" ]
  /\ map (build_id (world_of sample_manifest distinct_draws)) (seq 0 5)
     = [ lit "000000200000400080000000"; lit "000000400000400080000000";
         lit "000000600000400080000000"; lit "000000800000400080000000";
         lit "000000A00000400080000000" ].
Proof. split; vm_compute; reflexivity. Qed.

(** The run on the sample manifest: every block lands in its section. *)
Example sample_run :
  files (add_files_to_xcode_project
           (world_of sample_manifest distinct_draws)).2 !! project_file
  = Some (lit "// !$*UTF8*$!\n{\n/* Begin PBXBuildFile section */\n\t\tAA01 /* A.swift in Sources */ = {isa = PBXBuildFile; fileRef = BB01 /* A.swift */; };\n"
          ++ build_block (file_id (world_of sample_manifest distinct_draws))
                         (build_id (world_of sample_manifest distinct_draws))
          ++ lit "/* End PBXBuildFile section */\n\n/* Begin PBXFileReference section */\n\t\tBB01 /* A.swift */ = {isa = PBXFileReference; path = A.swift; };\n"
          ++ file_block (file_id (world_of sample_manifest distinct_draws))
          ++ lit "/* End PBXFileReference section */\n\n/* Begin PBXGroup section */\n\t\tCC01 /* Core/Services */ = {\n\t\t\tisa = PBXGroup;\n\t\t\tchildren = (\n\t\t\t\tBB01 /* A.swift */,\n\t\t\t"
          ++ services_block (file_id (world_of sample_manifest distinct_draws))
          ++ lit ");\n\t\t};\n\t\tCC02 /* ViewControllers */ = {\n\t\t\tisa = PBXGroup;\n\t\t\tchildren = (\n\t\t\t"
          ++ vc_block (file_id (world_of sample_manifest distinct_draws))
          ++ lit ");\n\t\t};\n/* End PBXGroup section */\n\n/* Begin PBXSourcesBuildPhase section */\n\t\tDD01 /* Sources */ = {\n\t\t\tisa = PBXSourcesBuildPhase;\n\t\t\tfiles = (\n\t\t\t\tAA01 /* A.swift in Sources */,\n\t\t\t"
          ++ sources_block (build_id (world_of sample_manifest distinct_draws))
          ++ lit ");\n\t\t};\n/* End PBXSourcesBuildPhase section */\n}\n").
Proof. vm_compute. reflexivity. Qed.

(** [str.replace] rewrites every occurrence of the captured text: the
    body of an empty section is a lone newline, so the block is added
    after every newline of the manifest, here also after the end marker. *)
Example every_occurrence_is_replaced :
  captured PBXBuildFile empty_section_manifest = Some [NL]
  /\ find_all [NL] 0 empty_section_manifest = [32; 63]%nat
  /\ files (add_files_to_xcode_project
              (world_of empty_section_manifest distinct_draws)).2
       !! project_file
     = Some (lit "/* Begin PBXBuildFile section */\n"
             ++ build_block
                  (file_id (world_of empty_section_manifest distinct_draws))
                  (build_id (world_of empty_section_manifest distinct_draws))
             ++ lit "/* End PBXBuildFile section */\n"
             ++ build_block
                  (file_id (world_of empty_section_manifest distinct_draws))
                  (build_id (world_of empty_section_manifest distinct_draws))).
Proof. split; [|split]; vm_compute; reflexivity. Qed.

(** A list's capture stops at the first closing parenthesis, whatever it
    closes: with a parenthesis in a file name the new lines land inside
    the existing line. *)
Example capture_stops_at_first_parenthesis :
  captured Sources parenthesis_manifest
  = Some (lit "/* Sources */ = {\n\t\t\tfiles = (\n\t\t\t\tAA01 /* A (1")
  /\ files (add_files_to_xcode_project
              (world_of parenthesis_manifest distinct_draws)).2 !! project_file
     = Some (lit "DD01 /* Sources */ = {\n\t\t\tfiles = (\n\t\t\t\tAA01 /* A (1"
             ++ sources_block
                  (build_id (world_of parenthesis_manifest distinct_draws))
             ++ lit ").swift in Sources */,\n\t\t\t);\n};\n").
Proof. split; vm_compute; reflexivity. Qed.

(** * The claims *)




(** C2 (amended). For every file of [files_to_add], in their order, a run
    renders exactly one PBXFileReference record, one PBXBuildFile record
    whose [fileRef] is that file reference's identifier, one line of a
    children list with the same identifier (the lines of the first three
    files make up the block for Core/Services, those of the last two the
    block for ViewControllers) and one line of the Sources phase with the
    build file's identifier.  Each of the five blocks is inserted by the
    update of its own pattern and by nothing else: where the pattern
    matches, the updated text contains the block; where it does not, the
    update leaves the text as it is, whatever the other updates did.  So
    the records are not inserted together: when the PBXFileReference
    pattern does not match and the text holds no [isa = PBXFileReference],
    the patched text holds none either, and the [fileRef] of a
    PBXBuildFile record that was inserted resolves to no file-reference
    record. *)
Theorem C2_one_linked_record_per_file (w : world) :
  exists file_refs build_refs w',
    generate_uuids w = (Ok (file_refs, build_refs), w')
    /\ new_file_entries file_refs
       = Ok (concat (imap (fun k fi => file_ref_entry (file_id w k) (name fi))
                       files_to_add))
    /\ new_build_entries file_refs build_refs
       = Ok (concat (imap (fun k fi =>
                       build_file_entry (build_id w k) (name fi) (file_id w k))
                       files_to_add))
    /\ (forall g,
          new_services_group file_refs g
          = Ok (g ++ concat (imap (fun k fi =>
                               child_entry (file_id w k) (name fi))
                               (take 3 files_to_add))))
    /\ (forall g,
          new_vc_group file_refs g
          = Ok (g ++ concat (imap (fun k fi =>
                               child_entry (file_id w (3 + k)%nat) (name fi))
                               (drop 3 files_to_add))))
    /\ (forall g,
          new_sources_phase build_refs g
          = Ok (g ++ concat (imap (fun k fi =>
                               sources_entry (build_id w k) (name fi))
                               files_to_add)))
    /\ (forall content,
          add_build_files file_refs build_refs content
          = Ok (update PBXBuildFile
                  (extend_section (build_block (file_id w) (build_id w)))
                  content)
          /\ add_file_refs file_refs content
             = Ok (update PBXFileReference
                     (extend_section (file_block (file_id w))) content)
          /\ add_to_services_group file_refs content
             = Ok (update CoreServices
                     (extend_list (services_block (file_id w))) content)
          /\ add_to_vc_group file_refs content
             = Ok (update ViewControllers
                     (extend_list (vc_block (file_id w))) content)
          /\ add_to_sources_phase build_refs content
             = Ok (update Sources
                     (extend_list (sources_block (build_id w))) content))
    /\ (forall pat block content,
          is_Some (captured pat content) ->
          occurs block (update pat (extend_section block) content)
          /\ occurs block (update pat (extend_list block) content))
    /\ (forall pat ext content,
          captured pat content = None -> update pat ext content = content)
    /\ (forall content,
          captured PBXFileReference
            (update PBXBuildFile
               (extend_section (build_block (file_id w) (build_id w)))
               content) = None ->
          absent (lit "isa = PBXFileReference") content ->
          absent (lit "isa = PBXFileReference")
            (patched (file_id w) (build_id w) content)).
Proof.
  destruct (generate_uuids_spec w) as (fr & br & Hg & Hd & _).
  pose proof (file_id_valid w) as HF. pose proof (build_id_valid w) as HB.
  eexists fr, br, _. split; [exact Hg|].
  split; [apply (new_file_entries_eq _ _ _ _ Hd)|].
  split; [apply (new_build_entries_eq _ _ _ _ Hd)|].
  split; [intros g; apply (new_services_group_eq _ _ _ _ Hd)|].
  split; [intros g; apply (new_vc_group_eq _ _ _ _ Hd)|].
  split; [intros g; apply (new_sources_phase_eq _ _ _ _ Hd)|].
  split.
  { intros content.
    rewrite (add_build_files_eq _ _ _ _ Hd), (add_file_refs_eq _ _ _ _ Hd),
      (add_to_services_group_eq _ _ _ _ Hd), (add_to_vc_group_eq _ _ _ _ Hd),
      (add_to_sources_phase_eq _ _ _ _ Hd). done. }
  split.
  { intros pat block content [old Hc].
    pose proof (captured_occurs _ _ _ Hc) as Ho.
    apply captured_inv in Hc as (m & Hm & Hgr). unfold update.
    rewrite Hm, Hgr. split.
    - destruct (replace_occurs content old (extend_section block old) Ho)
        as (a & b & ->).
      unfold extend_section.
      exists (a ++ Str.rstrip old ++ [NL]), b. by rewrite <- !app_assoc.
    - destruct (replace_occurs content old (extend_list block old) Ho)
        as (a & b & ->).
      unfold extend_list. exists (a ++ old), b. by rewrite <- !app_assoc. }
  split; [intros pat ext content; apply update_unmatched|].
  intros content Hnone Habs.
  unfold patched, updates, apply_updates. cbn [foldl fst snd].
  rewrite (update_unmatched PBXFileReference) by done.
  apply update_list_absent
    with (T := removelast (tail sources_block_template));
    [exact (sources_block_fits _ HB)|reflexivity|reflexivity|reflexivity|].
  apply update_list_absent
    with (T := removelast (tail vc_block_template));
    [exact (vc_block_fits _ HF)|reflexivity|reflexivity|reflexivity|].
  apply absent_after_services; [done|reflexivity|reflexivity|reflexivity|].
  by apply absent_after_build_files.
Qed.

(** C2, as stated, fails: [build_section_only] has no PBXFileReference
    section; the run adds the five PBXBuildFile records all the same, and
    the identifier the first of them refers to occurs nowhere else in the
    written text, which holds no PBXFileReference record at all. *)
Lemma C2_counterexample :
  files (add_files_to_xcode_project
           (world_of build_section_only distinct_draws)).2 !! project_file
  = Some (lit "/* Begin PBXBuildFile section */\n\t\tAA01 /* A.swift in Sources */ = {isa = PBXBuildFile; fileRef = BB01 /* A.swift */; };\n"
          ++ build_block (file_id (world_of build_section_only distinct_draws))
                         (build_id (world_of build_section_only distinct_draws))
          ++ lit "/* End PBXBuildFile section */\n")
  /\ find_all (file_id (world_of build_section_only distinct_draws) 0) 0
       (lit "/* Begin PBXBuildFile section */\n\t\tAA01 /* A.swift in Sources */ = {isa = PBXBuildFile; fileRef = BB01 /* A.swift */; };\n"
        ++ build_block (file_id (world_of build_section_only distinct_draws))
                       (build_id (world_of build_section_only distinct_draws))
        ++ lit "/* End PBXBuildFile section */\n")
     = [233%nat]
  /\ absent (lit "isa = PBXFileReference")
       (lit "/* Begin PBXBuildFile section */\n\t\tAA01 /* A.swift in Sources */ = {isa = PBXBuildFile; fileRef = BB01 /* A.swift */; };\n"
        ++ build_block (file_id (world_of build_section_only distinct_draws))
                       (build_id (world_of build_section_only distinct_draws))
        ++ lit "/* End PBXBuildFile section */\n").
Proof.
  split; [vm_compute; reflexivity|]. split; vm_compute; reflexivity.
Qed.

(** C3 (amended). The identifiers are not compared with one another nor
    with those of the manifest; the ten minted by a run are pairwise
    distinct exactly when the UUID values drawn differ pairwise in their
    leading 96 bits, the part an identifier shows. *)
Theorem C3_distinct_iff_draws_differ (w : world) :
  Forall (fun k => entropy w (draws w + k) < 2 ^ 128) draw_order ->
  exists file_refs build_refs w',
    generate_uuids w = (Ok (file_refs, build_refs), w')
    /\ (NoDup (minted_ids file_refs build_refs) <->
        NoDup (map (fun k => leading_bits
                               (Uuid.uuid4 (entropy w (draws w + k))))
                 draw_order)).
Proof.
  intros Hbound.
  destruct (generate_uuids_spec w) as (fr & br & Hg & Hd & _).
  eexists fr, br, _. split; [exact Hg|].
  rewrite (minted_ids_eq _ _ _ _ Hd).
  replace (map (file_id w) (seq 0 5) ++ map (build_id w) (seq 0 5))
    with (map (fun k => Uuid.new_id (entropy w (draws w + k))) draw_order)
    by (unfold file_id, build_id, draw_order; cbn [map seq app];
        repeat (apply (f_equal2 cons); [do 2 f_equal; lia|]); done).
  rewrite Forall_forall in Hbound.
  apply NoDup_map_iff. intros x y Hx Hy. apply new_id_inj; by apply Hbound, list_elem_of_In.
Qed.

Lemma C3_distinct_witness :
  exists file_refs build_refs w',
    generate_uuids (world_of sample_manifest distinct_draws)
      = (Ok (file_refs, build_refs), w')
    /\ (NoDup (minted_ids file_refs build_refs) <->
        NoDup (map (fun k => leading_bits
                               (Uuid.uuid4 (distinct_draws (0 + k))))
                 draw_order)).
Proof.
  apply (C3_distinct_iff_draws_differ (world_of sample_manifest distinct_draws)).
  repeat constructor.
Defined.

(** C3, as stated, fails: when every draw returns the same sixteen bytes
    (here zeros), the ten identifiers minted are one and the same, which
    moreover already names a file reference of the manifest; the run
    reports no error and writes records that share it. *)
Lemma C3_counterexample :
  map (file_id (world_of manifest_with_zero_id zero_draws)) (seq 0 5)
    ++ map (build_id (world_of manifest_with_zero_id zero_draws)) (seq 0 5)
  = replicate 10 zero_id
  /\ find_all zero_id 0 manifest_with_zero_id = [100; 215]%nat
  /\ add_files_to_xcode_project (world_of manifest_with_zero_id zero_draws)
     = (Ok tt,
        world_after (world_of manifest_with_zero_id zero_draws)
          manifest_with_zero_id
          (patched (fun _ => zero_id) (fun _ => zero_id) manifest_with_zero_id))
  /\ length
       (find_all
          (build_file_entry zero_id (lit "ModernStudyCell.swift") zero_id) 0
          (patched (fun _ => zero_id) (fun _ => zero_id) manifest_with_zero_id))
     = 1%nat.
Proof.
  split; [vm_compute; reflexivity|]. split; [vm_compute; reflexivity|].
  split; [|vm_compute; reflexivity].
  destruct (run_ok (world_of manifest_with_zero_id zero_draws)
              manifest_with_zero_id manifest_with_zero_id)
    as (written & He & ->); [by apply world_of_goes_through|].
  vm_compute in He. injection He as <-. reflexivity.
Qed.

(** C4 (amended). The allocator accepts every candidate as drawn, without
    consulting the manifest and without retrying: two worlds with the
    same random source mint the same identifiers whatever their files
    hold, and the allocation always succeeds, after exactly ten draws,
    leaving the files as they were. *)
Theorem C4_allocator_never_checks (w1 w2 : world) :
  entropy w1 = entropy w2 ->
  draws w1 = draws w2 ->
  exists file_refs build_refs w1' w2',
    generate_uuids w1 = (Ok (file_refs, build_refs), w1')
    /\ generate_uuids w2 = (Ok (file_refs, build_refs), w2')
    /\ draws w1' = (draws w1 + 10)%nat
    /\ files w1' = files w1
    /\ minted_ids file_refs build_refs
       = map (fun k => Uuid.new_id (entropy w1 (draws w1 + k))) draw_order.
Proof.
  intros He Hd.
  pose proof (generate_uuids_random_only w1 w2 He Hd) as Hsame.
  destruct (generate_uuids_spec w1) as (fr & br & Hg1 & Hd1 & _).
  destruct (generate_uuids_spec w2) as (fr' & br' & Hg2 & _).
  rewrite Hg1, Hg2 in Hsame. cbn [fst] in Hsame. injection Hsame as <- <-.
  eexists fr, br, _, _. split; [exact Hg1|]. split; [exact Hg2|].
  split; [done|]. split; [done|].
  rewrite (minted_ids_eq _ _ _ _ Hd1).
  unfold file_id, build_id, draw_order; cbn [map seq app].
  repeat (apply (f_equal2 cons); [do 2 f_equal; lia|]); done.
Qed.

Lemma C4_allocator_witness :
  exists file_refs build_refs w1' w2',
    generate_uuids (world_of manifest_with_zero_id zero_draws)
      = (Ok (file_refs, build_refs), w1')
    /\ generate_uuids (world_of no_sections zero_draws)
      = (Ok (file_refs, build_refs), w2')
    /\ draws w1' = (draws (world_of manifest_with_zero_id zero_draws) + 10)%nat
    /\ files w1' = files (world_of manifest_with_zero_id zero_draws)
    /\ minted_ids file_refs build_refs
       = map (fun k => Uuid.new_id
                         (entropy (world_of manifest_with_zero_id zero_draws)
                            (draws (world_of manifest_with_zero_id zero_draws) + k)))
           draw_order.
Proof.
  apply (C4_allocator_never_checks
           (world_of manifest_with_zero_id zero_draws)
           (world_of no_sections zero_draws)); reflexivity.
Defined.

(** C4, as stated, fails: the candidate [zero_id] is already an
    identifier of the manifest, yet the allocator accepts it, ten times
    over, and the run ends without any error. *)
Lemma C4_counterexample :
  find_all zero_id 0 manifest_with_zero_id = [100; 215]%nat
  /\ (exists file_refs build_refs,
        (generate_uuids (world_of manifest_with_zero_id zero_draws)).1
          = Ok (file_refs, build_refs)
        /\ minted_ids file_refs build_refs = replicate 10 zero_id)
  /\ (add_files_to_xcode_project (world_of manifest_with_zero_id zero_draws)).1
     = Ok tt.
Proof.
  split; [vm_compute; reflexivity|]. split.
  - destruct (generate_uuids_spec (world_of manifest_with_zero_id zero_draws))
      as (fr & br & Hg & Hd & _).
    exists fr, br. rewrite Hg. split; [done|].
    by rewrite (minted_ids_eq _ _ _ _ Hd).
  - destruct (run_ok (world_of manifest_with_zero_id zero_draws)
                manifest_with_zero_id manifest_with_zero_id)
      as (written & _ & ->); [by apply world_of_goes_through|done].
Qed.







(** C7 (amended). The manifest is read before it is copied: a run whose
    read fails (no manifest, one that may not be read, bytes that are
    not UTF-8) stops there with nothing changed and no backup made.  A
    manifest that has been read is copied byte for byte to the backup
    path, the manifest's path with [.backup_add_files] appended (inside
    it, under the manifest's base name, when that path is a directory),
    before the manifest is opened for writing: when the copy succeeds,
    the backup holds the bytes that the manifest had before the run,
    after the copy and after the run however it ends; when the copy
    fails, the run stops there with the error of the copy, and the
    manifest is as it was. *)
Theorem C7_backup_before_mutation (w : world) :
  backup_file = project_file ++ lit ".backup_add_files"
  /\ backup_target w
     = (if is_dir (os w) backup_file
        then backup_file ++ lit "/project.pbxproj" else backup_file)
  /\ (forall e,
        (open_read project_file w).1 = Raise e ->
        add_files_to_xcode_project w = (Raise e, w))
  /\ (forall bytes text,
        manifest_holds w bytes text ->
        (forall w1,
           shutil_copy project_file backup_file w = (Ok tt, w1) ->
           files w1 !! backup_target w = Some bytes
           /\ files w1 !! project_file = Some bytes
           /\ files (add_files_to_xcode_project w).2 !! backup_target w
              = Some bytes)
        /\ (forall e w1,
              shutil_copy project_file backup_file w = (Raise e, w1) ->
              add_files_to_xcode_project w = (Raise e, w1)
              /\ files w1 !! project_file = Some bytes)).
Proof.
  split; [done|]. split; [done|]. split; [apply run_read_fails|].
  intros bytes text H.
  pose proof (shutil_copy_result w bytes text H) as Hc.
  pose proof (target_ne_project w) as Hne.
  destruct (H) as (_ & Hf & _ & Hd).
  destruct (patched_encodes w bytes text Hd) as [written He].
  pose proof (run_result w bytes text written H He) as Hrun.
  unfold after_read, after_bytes in Hrun. unfold mode_copied in Hc.
  destruct (same_file (os w) project_file (backup_target w)).
  { split; [intros w1; by rewrite Hc|].
    intros e w1. rewrite Hc. intros [= <- <-]. by rewrite Hrun. }
  destruct (may_write w (backup_target w)).
  2:{ split; [intros w1; by rewrite Hc|].
      intros e w1. rewrite Hc. intros [= <- <-]. by rewrite Hrun. }
  assert (forall w1,
    (Ok tt, copied w bytes) = (Ok tt, w1) ->
    add_files_to_xcode_project w = after_copy w bytes written ->
    files w1 !! backup_target w = Some bytes
    /\ files w1 !! project_file = Some bytes
    /\ files (add_files_to_xcode_project w).2 !! backup_target w = Some bytes)
    as Hgood.
  { intros w1 [= <-] ->. cbn [copied files].
    split; [apply lookup_insert_eq|].
    split; [by rewrite lookup_insert_ne|].
    unfold after_copy.
    destruct (can_write (perm (os w) project_file));
      [|apply lookup_insert_eq].
    destruct (room (os w) project_file) as [k|];
      [destruct (k <? length written)%nat|];
      cbn [snd world_after files];
      rewrite lookup_insert_ne by done; apply lookup_insert_eq. }
  assert (
    shutil_copy project_file backup_file w
      = (if may_chmod (os w) (backup_target w)
         then (Ok tt, copied w bytes)
         else (Raise PermissionError,
               World (<[backup_target w := bytes]> (files w))
                     (os w) (entropy w) (draws w) (stdout w))) ->
    add_files_to_xcode_project w
      = (if may_chmod (os w) (backup_target w)
         then after_copy w bytes written
         else (Raise PermissionError,
               World (<[backup_target w := bytes]> (files w))
                     (os w) (entropy w) (draws w) (stdout w))) ->
    (forall w1,
       shutil_copy project_file backup_file w = (Ok tt, w1) ->
       files w1 !! backup_target w = Some bytes
       /\ files w1 !! project_file = Some bytes
       /\ files (add_files_to_xcode_project w).2 !! backup_target w
          = Some bytes)
    /\ (forall e w1,
          shutil_copy project_file backup_file w = (Raise e, w1) ->
          add_files_to_xcode_project w = (Raise e, w1)
          /\ files w1 !! project_file = Some bytes)) as Hmode.
  { intros Hc' Hrun'.
    destruct (may_chmod (os w) (backup_target w)).
    - split; [|intros e w1; by rewrite Hc'].
      intros w1. rewrite Hc'. intros E. by apply Hgood.
    - split; [intros w1; by rewrite Hc'|].
      intros e w1. rewrite Hc'. intros [= <- <-]. split; [done|].
      cbn [files]. by rewrite lookup_insert_ne. }
  destruct (room (os w) (backup_target w)) as [n|];
    [destruct (n <? length bytes)%nat|].
  - split; [intros w1; by rewrite Hc|].
    intros e w1. rewrite Hc. intros [= <- <-]. split; [done|].
    cbn [files]. by rewrite lookup_insert_ne.
  - by apply Hmode.
  - by apply Hmode.
Qed.

Lemma C7_backup_witness :
  files (add_files_to_xcode_project
           (world_of sample_manifest distinct_draws)).2
    !! backup_target (world_of sample_manifest distinct_draws)
  = Some sample_manifest
  /\ add_files_to_xcode_project
       (world_locked_backup sample_manifest distinct_draws)
     = (Raise PermissionError,
        world_locked_backup sample_manifest distinct_draws)
  /\ add_files_to_xcode_project (world_of undecodable_manifest distinct_draws)
     = (Raise UnicodeDecodeError, world_of undecodable_manifest distinct_draws).
Proof.
  split; [|split].
  - apply (proj1 (proj2 (proj2 (proj2
             (C7_backup_before_mutation
                (world_of sample_manifest distinct_draws))))
             sample_manifest sample_manifest
             ltac:(by repeat split))
             (copied (world_of sample_manifest distinct_draws) sample_manifest)).
    reflexivity.
  - apply (proj2 (proj2 (proj2 (proj2
             (C7_backup_before_mutation
                (world_locked_backup sample_manifest distinct_draws))))
             sample_manifest sample_manifest
             ltac:(by repeat split))
             PermissionError
             (world_locked_backup sample_manifest distinct_draws)).
    reflexivity.
  - apply (proj1 (proj2 (proj2
             (C7_backup_before_mutation
                (world_of undecodable_manifest distinct_draws))))).
    reflexivity.
Defined.

(** C7, as stated, fails: the manifest of this world holds a byte that is
    not UTF-8; the read on line 13 raises before the copy on line 16, so
    that the run ends with no backup of the manifest at all. *)
Lemma C7_counterexample :
  files (world_of undecodable_manifest distinct_draws) !! project_file
  = Some [255]
  /\ add_files_to_xcode_project (world_of undecodable_manifest distinct_draws)
     = (Raise UnicodeDecodeError, world_of undecodable_manifest distinct_draws)
  /\ files (add_files_to_xcode_project
              (world_of undecodable_manifest distinct_draws)).2
       !! backup_file
     = None.
Proof.
  split; [reflexivity|]. split; [|vm_compute; reflexivity].
  apply run_read_fails. reflexivity.
Qed.

(** C8 (amended). In every update the new lines come, in the order of
    [files_to_add], directly after the text captured by the pattern, which
    itself stays where and as it was but for the trailing whitespace of a
    record section's body, replaced by one newline: in a record section
    the block ends right before the end marker; in a list it ends right
    before the closing parenthesis (or the end of the text) at which the
    capture stopped.  This holds whenever the captured text occurs at a
    single offset of the text being updated. *)
Theorem C8_appended_after_captured_text (w : world) (content : list N) :
  exists file_refs build_refs w',
    generate_uuids w = (Ok (file_refs, build_refs), w')
    /\ build_block (file_id w) (build_id w)
       = concat (imap (fun k fi =>
                   build_file_entry (build_id w k) (name fi) (file_id w k))
                 files_to_add)
    /\ (forall old,
          captured PBXBuildFile content = Some old -> occurs_once old content ->
          exists pre post,
            content = pre ++ begin_marker (lit "PBXBuildFile") ++ old
                      ++ end_marker (lit "PBXBuildFile") ++ post
            /\ add_build_files file_refs build_refs content
               = Ok (pre ++ begin_marker (lit "PBXBuildFile")
                     ++ Str.rstrip old ++ [NL]
                     ++ build_block (file_id w) (build_id w)
                     ++ end_marker (lit "PBXBuildFile") ++ post))
    /\ (forall old,
          captured PBXFileReference content = Some old ->
          occurs_once old content ->
          exists pre post,
            content = pre ++ begin_marker (lit "PBXFileReference") ++ old
                      ++ end_marker (lit "PBXFileReference") ++ post
            /\ add_file_refs file_refs content
               = Ok (pre ++ begin_marker (lit "PBXFileReference")
                     ++ Str.rstrip old ++ [NL] ++ file_block (file_id w)
                     ++ end_marker (lit "PBXFileReference") ++ post))
    /\ (forall old,
          captured CoreServices content = Some old -> occurs_once old content ->
          exists pre post,
            content = pre ++ old ++ post
            /\ (post = [] \/ exists t, post = 41 :: t)
            /\ add_to_services_group file_refs content
               = Ok (pre ++ old ++ services_block (file_id w) ++ post))
    /\ (forall old,
          captured ViewControllers content = Some old ->
          occurs_once old content ->
          exists pre post,
            content = pre ++ old ++ post
            /\ (post = [] \/ exists t, post = 41 :: t)
            /\ add_to_vc_group file_refs content
               = Ok (pre ++ old ++ vc_block (file_id w) ++ post))
    /\ (forall old,
          captured Sources content = Some old -> occurs_once old content ->
          exists pre post,
            content = pre ++ old ++ post
            /\ (post = [] \/ exists t, post = 41 :: t)
            /\ add_to_sources_phase build_refs content
               = Ok (pre ++ old ++ sources_block (build_id w) ++ post)).
Proof.
  destruct (generate_uuids_spec w) as (fr & br & Hg & Hd & _).
  eexists fr, br, _. split; [exact Hg|]. split; [done|].
  split; [|split; [|split; [|split]]]; intros old Hc Honce.
  - rewrite (add_build_files_eq _ _ _ _ Hd).
    destruct (section_update_once _ (build_block (file_id w) (build_id w))
                _ _ Hc Honce) as (pre & post & H1 & H2).
    exists pre, post. split; [done|]. unfold PBXBuildFile. by rewrite H2.
  - rewrite (add_file_refs_eq _ _ _ _ Hd).
    destruct (section_update_once _ (file_block (file_id w)) _ _ Hc Honce)
      as (pre & post & H1 & H2).
    exists pre, post. split; [done|]. unfold PBXFileReference. by rewrite H2.
  - rewrite (add_to_services_group_eq _ _ _ _ Hd).
    destruct (list_update_once _ _ (services_block (file_id w)) _ _ Hc Honce)
      as (pre & post & H1 & H2 & H3).
    exists pre, post. split; [done|]. split; [done|].
    unfold CoreServices. by rewrite H3.
  - rewrite (add_to_vc_group_eq _ _ _ _ Hd).
    destruct (list_update_once _ _ (vc_block (file_id w)) _ _ Hc Honce)
      as (pre & post & H1 & H2 & H3).
    exists pre, post. split; [done|]. split; [done|].
    unfold ViewControllers. by rewrite H3.
  - rewrite (add_to_sources_phase_eq _ _ _ _ Hd).
    destruct (list_update_once _ _ (sources_block (build_id w)) _ _ Hc Honce)
      as (pre & post & H1 & H2 & H3).
    exists pre, post. split; [done|]. split; [done|].
    unfold Sources. by rewrite H3.
Qed.

(** C8, as stated, fails: in [trailing_blanks_manifest] the last record of
    the PBXBuildFile section is followed by two blanks, which the run
    removes: the existing line is not in the written text any more. *)
Lemma C8_counterexample :
  find_all (lit "; };  ") 0 trailing_blanks_manifest = [116%nat]
  /\ files (add_files_to_xcode_project
              (world_of trailing_blanks_manifest distinct_draws)).2
       !! project_file
     = Some (lit "/* Begin PBXBuildFile section */\n\t\tAA01 /* A.swift in Sources */ = {isa = PBXBuildFile; fileRef = BB01 /* A.swift */; };\n"
             ++ build_block
                  (file_id (world_of trailing_blanks_manifest distinct_draws))
                  (build_id (world_of trailing_blanks_manifest distinct_draws))
             ++ lit "/* End PBXBuildFile section */\n")
  /\ absent (lit "; };  ")
       (lit "/* Begin PBXBuildFile section */\n\t\tAA01 /* A.swift in Sources */ = {isa = PBXBuildFile; fileRef = BB01 /* A.swift */; };\n"
        ++ build_block
             (file_id (world_of trailing_blanks_manifest distinct_draws))
             (build_id (world_of trailing_blanks_manifest distinct_draws))
        ++ lit "/* End PBXBuildFile section */\n").
Proof.
  split; [vm_compute; reflexivity|]. split; vm_compute; reflexivity.
Qed.

(** C9. Every minted identifier is 24 characters long and made of the
    uppercase hexadecimal digits, whatever the random draw; and the
    allocation loop mints exactly two identifiers per file of
    [files_to_add], from two separate draws: the file reference's from the
    draw number [2k] and the build file's from the draw number [2k+1]. *)
Theorem C9_identifier_format (w : world) :
  (forall r, length (Uuid.new_id r) = 24%nat
             /\ forallb is_upper_hex (Uuid.new_id r) = true)
  /\ exists file_refs build_refs w',
       generate_uuids w = (Ok (file_refs, build_refs), w')
       /\ draws w' = (draws w + 2 * length files_to_add)%nat
       /\ (forall k fi, files_to_add !! k = Some fi ->
             file_refs !! name fi
               = Some (Uuid.new_id (entropy w (draws w + 2 * k)))
             /\ build_refs !! name fi
               = Some (Uuid.new_id (entropy w (draws w + 2 * k + 1))))
       /\ length (minted_ids file_refs build_refs)
            = (2 * length files_to_add)%nat
       /\ Forall (fun i => length i = 24%nat
                           /\ forallb is_upper_hex i = true)
            (minted_ids file_refs build_refs).
Proof.
  assert (Hfmt : forall r, length (Uuid.new_id r) = 24%nat
                           /\ forallb is_upper_hex (Uuid.new_id r) = true).
  { intros r. split; [apply id_of_uuid_length|apply id_of_uuid_hex]. }
  split; [exact Hfmt|].
  destruct (generate_uuids_spec w) as (fr & br & Hg & Hd & _).
  eexists fr, br, _. split; [exact Hg|]. split; [done|]. split; [exact Hd|].
  rewrite (minted_ids_eq _ _ _ _ Hd). split; [done|].
  apply Forall_app. split; apply Forall_map, Forall_forall; intros k _; apply Hfmt.
Qed.




(** * Further properties *)

(** ** How a run ends *)





(** The manifest after that run: the first ten bytes of the new text. *)
Example write_cut_short :
  (add_files_to_xcode_project
     (world_small_device sample_manifest distinct_draws 10)).1 = Raise OSError
  /\ files (add_files_to_xcode_project
              (world_small_device sample_manifest distinct_draws 10)).2
       !! project_file = Some (lit "// !$*UTF8")
  /\ files (add_files_to_xcode_project
              (world_small_device sample_manifest distinct_draws 10)).2
       !! backup_file = Some sample_manifest.
Proof. split; [|split]; vm_compute; reflexivity. Qed.



(** X5. Nothing records that a run took place.  When a run that ended
    well is followed by a second one that ends well, the second run has
    drawn ten more identifiers, patched the manifest that the first run
    wrote, printed the summary again, and overwritten the backup with
    the manifest that the first run wrote. *)
Theorem second_run_overwrites_backup (w : world) :
  let w1 := (add_files_to_xcode_project w).2 in
  let w2 := (add_files_to_xcode_project w1).2 in
  (add_files_to_xcode_project w).1 = Ok tt ->
  (add_files_to_xcode_project w1).1 = Ok tt ->
  files w2 !! backup_target w = files w1 !! project_file
  /\ (exists written1 text1 written2,
        files w1 !! project_file = Some written1
        /\ Utf8.decode written1 = Some text1
        /\ Utf8.encode
             (patched
                (fun k => Uuid.new_id (entropy w (draws w + 10 + 2 * k)))
                (fun k => Uuid.new_id (entropy w (draws w + 10 + 2 * k + 1)))
                (universal_newlines text1)) = Some written2
        /\ files w2 !! project_file = Some written2)
  /\ draws w2 = (draws w + 20)%nat
  /\ stdout w2 = stdout w ++ summary ++ summary.
Proof.
  cbv zeta. intros H1.
  apply run_ok_inv in H1
    as (bytes & text & written & H & _ & _ & _ & He & ->).
  cbn [snd]. set (w1 := world_after w bytes written). intros H2.
  apply run_ok_inv in H2
    as (bytes1 & text1 & written1 & H' & _ & _ & _ & He' & ->).
  cbn [snd].
  assert (backup_target w1 = backup_target w) as Ht by reflexivity.
  destruct H' as (_ & Hf' & _ & Hd').
  split; [|split; [|split]].
  - cbn [world_after files]. rewrite Ht.
    rewrite lookup_insert_ne
      by (intros E; by apply (target_ne_project w)).
    by rewrite lookup_insert_eq.
  - exists bytes1, text1, written1. split; [done|]. split; [done|].
    split; [exact He'|]. cbn [world_after files]. apply lookup_insert_eq.
  - cbn [world_after draws w1]. lia.
  - cbn [world_after stdout w1]. by rewrite <- app_assoc.
Qed.

Lemma second_run_witness :
  let w := world_of sample_manifest distinct_draws in
  let w1 := (add_files_to_xcode_project w).2 in
  let w2 := (add_files_to_xcode_project w1).2 in
  files w2 !! backup_target w = files w1 !! project_file
  /\ (exists written1 text1 written2,
        files w1 !! project_file = Some written1
        /\ Utf8.decode written1 = Some text1
        /\ Utf8.encode
             (patched
                (fun k => Uuid.new_id (entropy w (draws w + 10 + 2 * k)))
                (fun k => Uuid.new_id (entropy w (draws w + 10 + 2 * k + 1)))
                (universal_newlines text1)) = Some written2
        /\ files w2 !! project_file = Some written2)
  /\ draws w2 = (draws w + 20)%nat
  /\ stdout w2 = stdout w ++ summary ++ summary.
Proof.
  apply (second_run_overwrites_backup (world_of sample_manifest distinct_draws));
    vm_compute; reflexivity.
Defined.

(** ** [str.replace], occurrence by occurrence *)

Lemma count_scan_skip p s k :
  count_scan p s k = count_scan p (drop k s) 0.
Proof.
  revert k. induction s as [|c s IH]; intros [|k]; try done.
  cbn [count_scan drop]. apply IH.
Qed.

Lemma startswith_length p s :
  Str.startswith p s = true -> (length p <= length s)%nat.
Proof.
  intros H. rewrite (startswith_inv p s H), length_app. lia.
Qed.

Lemma replace_scan_length old new :
  old <> [] ->
  forall n s, (length s <= n)%nat ->
    (length (Str.replace_scan old new s 0) + count_scan old s 0 * length old
     = length s + count_scan old s 0 * length new)%nat.
Proof.
  intros Hold. induction n as [|n IH]; intros [|c s] Hn; try done.
  { cbn in Hn. lia. }
  cbn [Str.replace_scan count_scan].
  destruct (Str.startswith old (c :: s)) eqn:Hs.
  - rewrite replace_scan_skip, count_scan_skip.
    pose proof (startswith_length _ _ Hs) as Hl. cbn [length] in Hl.
    assert (length old <> 0%nat) by (destruct old; done).
    specialize (IH (drop (length old - 1) s)).
    rewrite length_drop in IH. cbn [length] in Hn. specialize (IH ltac:(lia)).
    rewrite length_app. cbn [length]. lia.
  - cbn [length] in *. specialize (IH s ltac:(lia)). lia.
Qed.

Lemma replace_length s old new :
  (length (Str.replace s old new) + count old s * length old
   = length s + count old s * length new)%nat.
Proof.
  destruct old as [|o old].
  - cbn [Str.replace count length]. rewrite length_app.
    induction s as [|c s IH]; cbn [flat_map length]; [lia|].
    rewrite !length_app in *. cbn [length]. nia.
  - apply (replace_scan_length (o :: old) new ltac:(done) (length s)). done.
Qed.

Lemma count_occurs p s : occurs p s -> (1 <= count p s)%nat.
Proof.
  destruct p as [|x p]; [cbn; lia|]. cbn [count].
  induction s as [|c s IH]; intros Ho.
  - destruct Ho as (a & b & E). by destruct a.
  - cbn [count_scan]. destruct (Str.startswith (x :: p) (c :: s)) eqn:Hs; [lia|].
    apply IH. by eapply occurs_tail.
Qed.

Lemma find_first_cons p c s :
  find_first p (c :: s) =
    if Str.startswith p (c :: s) then Some 0%nat else S <$> find_first p s.
Proof.
  unfold find_first. cbn [find_all].
  destruct (Str.startswith p (c :: s)); [done|].
  cbn [app]. rewrite find_all_shift. by destruct (find_all p 0 s).
Qed.

(** X6. [str.replace], unfolded at the first occurrence of [old]: the
    text before it is kept, [new] takes its place, and the replacement
    goes on in what follows it, so that every later occurrence is
    replaced as well. *)
Theorem replace_goes_on_after_an_occurrence (a old b new : list N) :
  old <> [] ->
  find_first old (a ++ old ++ b) = Some (length a) ->
  Str.replace (a ++ old ++ b) old new = a ++ new ++ Str.replace b old new.
Proof.
  intros Hold. destruct old as [|x p]; [done|]. cbn [Str.replace].
  induction a as [|c a IH]; intros Hf.
  - cbn [app]. rewrite replace_scan_cons by done.
    change (x :: p ++ b) with ((x :: p) ++ b).
    by rewrite startswith_app, drop_app_length.
  - change ((c :: a) ++ (x :: p) ++ b) with (c :: (a ++ (x :: p) ++ b)) in *.
    rewrite find_first_cons in Hf. rewrite replace_scan_cons by done.
    destruct (Str.startswith (x :: p) (c :: a ++ (x :: p) ++ b)); [done|].
    cbn [app]. f_equal. apply IH.
    destruct (find_first (x :: p) (a ++ (x :: p) ++ b)); [|done].
    cbn in Hf. by injection Hf as ->.
Qed.

Lemma replace_goes_on_witness :
  Str.replace (lit "a;" ++ lit "\n" ++ lit "b;\nc;\n") (lit "\n") (lit "\nX\n")
  = lit "a;" ++ lit "\nX\n" ++ Str.replace (lit "b;\nc;\n") (lit "\n") (lit "\nX\n").
Proof.
  apply (replace_goes_on_after_an_occurrence
           (lit "a;") (lit "\n") (lit "b;\nc;\n") (lit "\nX\n")).
  - discriminate.
  - reflexivity.
Defined.

(** X7. An update whose pattern matches extends the captured text
    wherever [str.replace] meets it, not only where the pattern matched:
    at least once, and as many times as [str.count] counts the captured
    text in the manifest (once more than the manifest has characters
    when a section's body is empty). *)
Theorem matched_update_extends_every_occurrence
    (pat : Re.re) (ext : list N -> list N) (content old : list N) :
  captured pat content = Some old ->
  occurs old content
  /\ occurs (ext old) (update pat ext content)
  /\ (1 <= count old content)%nat
  /\ (length (update pat ext content) + count old content * length old
      = length content + count old content * length (ext old))%nat.
Proof.
  intros Hc. pose proof (captured_occurs _ _ _ Hc) as Ho.
  assert (update pat ext content = Str.replace content old (ext old)) as ->.
  { apply captured_inv in Hc as (m & Hm & Hg). unfold update. by rewrite Hm, Hg. }
  repeat split; [done|by apply replace_occurs|by apply count_occurs|].
  apply replace_length.
Qed.

Lemma matched_update_witness :
  let ext := extend_section (build_block (fun _ => zero_id) (fun _ => zero_id)) in
  occurs [NL] empty_section_manifest
  /\ occurs (ext [NL]) (update PBXBuildFile ext empty_section_manifest)
  /\ (1 <= count [NL] empty_section_manifest)%nat
  /\ (length (update PBXBuildFile ext empty_section_manifest)
      + count [NL] empty_section_manifest * length [NL]
      = length empty_section_manifest
        + count [NL] empty_section_manifest * length (ext [NL]))%nat.
Proof.
  apply (matched_update_extends_every_occurrence PBXBuildFile
           (extend_section (build_block (fun _ => zero_id) (fun _ => zero_id)))
           empty_section_manifest [NL]).
  vm_compute. reflexivity.
Defined.

(** ** What an update can delete *)

Lemma nonblank_app a b : nonblank (a ++ b) = nonblank a ++ nonblank b.
Proof. apply filter_app. Qed.

Lemma nonblank_blank ws : forallb Str.isspace ws = true -> nonblank ws = [].
Proof.
  induction ws as [|c ws IH]; [done|]. cbn [forallb].
  intros [Hc Hws]%andb_prop. unfold nonblank. rewrite filter_cons.
  destruct (decide _) as [E|_]; [congruence|]. by apply IH.
Qed.

Lemma nonblank_rstrip s : nonblank (Str.rstrip s) = nonblank s.
Proof.
  destruct (rstrip_prefix s) as (ws & E & Hws).
  rewrite E at 2. by rewrite nonblank_app, (nonblank_blank ws Hws), app_nil_r.
Qed.

Lemma replace_scan_nonblank old new :
  old <> [] -> sublist (nonblank old) (nonblank new) ->
  forall n s, (length s <= n)%nat ->
    sublist (nonblank s) (nonblank (Str.replace_scan old new s 0)).
Proof.
  intros Hold Hsub. induction n as [|n IH]; intros [|c s] Hn; try done.
  { cbn in Hn. lia. }
  rewrite replace_scan_cons by done.
  destruct (Str.startswith old (c :: s)) eqn:Hs.
  - rewrite (startswith_inv _ _ Hs) at 1. rewrite !nonblank_app.
    apply sublist_app; [done|]. apply IH. rewrite length_drop.
    cbn [length] in *. destruct old; [done|]. cbn [length]. lia.
  - unfold nonblank. rewrite !filter_cons. cbn [length] in Hn.
    destruct (decide _); [apply sublist_skip|]; apply IH; lia.
Qed.

Lemma replace_nonblank s old new :
  sublist (nonblank old) (nonblank new) ->
  sublist (nonblank s) (nonblank (Str.replace s old new)).
Proof.
  intros Hsub. destruct old as [|x p].
  - cbn [Str.replace]. rewrite nonblank_app. apply sublist_inserts_l.
    induction s as [|c s IH]; [done|]. cbn [flat_map].
    change ((c :: new) ++ ?t) with ([c] ++ new ++ t).
    change (c :: s) with ([c] ++ s). rewrite !nonblank_app.
    apply sublist_app; [done|]. by apply sublist_inserts_l.
  - by apply (replace_scan_nonblank (x :: p) new ltac:(done) Hsub (length s)).
Qed.

Lemma update_nonblank pat ext content :
  (forall old, sublist (nonblank old) (nonblank (ext old))) ->
  sublist (nonblank content) (nonblank (update pat ext content)).
Proof.
  intros Hext. unfold update.
  destruct (Re.search pat content) as [m|]; [|done].
  destruct (Re.m_group1 m) as [old|]; [|done].
  apply replace_nonblank, Hext.
Qed.

Lemma extend_section_nonblank block old :
  sublist (nonblank old) (nonblank (extend_section block old)).
Proof.
  unfold extend_section. rewrite nonblank_app, nonblank_rstrip.
  by apply sublist_inserts_r.
Qed.

Lemma extend_list_nonblank block old :
  sublist (nonblank old) (nonblank (extend_list block old)).
Proof.
  unfold extend_list. rewrite nonblank_app. by apply sublist_inserts_r.
Qed.

Lemma patched_nonblank F B content :
  sublist (nonblank content) (nonblank (patched F B content)).
Proof.
  unfold patched, updates, apply_updates. cbn [foldl fst snd].
  repeat (etrans; [|apply update_nonblank;
                     first [apply extend_section_nonblank
                           |apply extend_list_nonblank]]).
  done.
Qed.

(** A character that is not a carriage return has none in its encoding. *)
Lemma encode_char_no_cr c e :
  Utf8.encode_char c = Some e -> c <> 13 -> Forall (fun b => b <> 13) e.
Proof.
  unfold Utf8.encode_char. intros He Hc.
  destruct (c <? 128); [injection He as <-; by repeat constructor|].
  destruct (c <? 2048); [|destruct ((55296 <=? c) && (c <=? 57343)); [done|];
    destruct (c <? 65536); [|destruct (c <? 1114112); [|done]]];
    injection He as <-;
    repeat (apply List.Forall_cons;
            [cbv beta; zify; Z.to_euclidean_division_equations; lia|]);
    constructor.
Qed.

Lemma encode_no_cr s bs :
  Utf8.encode s = Some bs ->
  Forall (fun c => c <> 13) s -> Forall (fun b => b <> 13) bs.
Proof.
  revert bs. induction s as [|c s IH]; intros bs; cbn [Utf8.encode].
  - by intros [= <-].
  - destruct (Utf8.encode_char c) as [e|] eqn:He; [|done].
    destruct (Utf8.encode s) as [bs'|]; [|done].
    intros [= <-] [Hc Hs]%Forall_cons.
    apply Forall_app. split; [by apply (encode_char_no_cr c)|by apply IH].
Qed.

(** X8. A run that ends well deletes nothing but whitespace: the
    characters of the manifest that are not whitespace are all in the
    text written, in their order. *)
Theorem run_deletes_only_whitespace (w : world) (bytes text : list N) :
  manifest_holds w bytes text ->
  (add_files_to_xcode_project w).1 = Ok tt ->
  exists written new_text,
    files (add_files_to_xcode_project w).2 !! project_file = Some written
    /\ Utf8.encode new_text = Some written
    /\ sublist (nonblank text) (nonblank new_text).
Proof.
  intros H Hok.
  apply run_ok_inv in Hok
    as (bytes' & text' & written & H' & _ & _ & _ & He & ->).
  destruct H as (_ & Hf & _ & Hd). destruct H' as (_ & Hf' & _ & Hd').
  rewrite Hf in Hf'. injection Hf' as <-.
  rewrite Hd in Hd'. injection Hd' as <-.
  eexists written, _. split; [apply lookup_insert_eq|]. split; [exact He|].
  rewrite <- (nonblank_universal_newlines text). apply patched_nonblank.
Qed.

Lemma run_deletes_only_whitespace_witness :
  let w := world_of blank_line_manifest distinct_draws in
  exists written new_text,
    files (add_files_to_xcode_project w).2 !! project_file = Some written
    /\ Utf8.encode new_text = Some written
    /\ sublist (nonblank blank_line_manifest) (nonblank new_text).
Proof.
  apply (run_deletes_only_whitespace
           (world_of blank_line_manifest distinct_draws)
           blank_line_manifest blank_line_manifest);
    [by repeat split|vm_compute; reflexivity].
Defined.

(** X16. A run that ends well rewrites the line endings of the whole
    manifest: the text written holds no carriage return, in or out of
    the sections that the patterns match, while the backup keeps the
    bytes as they were. *)
Theorem run_rewrites_line_endings (w : world) (bytes text : list N) :
  manifest_holds w bytes text ->
  (add_files_to_xcode_project w).1 = Ok tt ->
  exists written,
    files (add_files_to_xcode_project w).2 !! project_file = Some written
    /\ Utf8.encode
         (patched (file_id w) (build_id w) (universal_newlines text))
       = Some written
    /\ Forall (fun c => c <> 13)
         (patched (file_id w) (build_id w) (universal_newlines text))
    /\ Forall (fun b => b <> 13) written
    /\ files (add_files_to_xcode_project w).2 !! backup_target w = Some bytes.
Proof.
  intros H Hok.
  apply run_ok_inv in Hok
    as (bytes' & text' & written & H' & _ & _ & _ & He & ->).
  destruct H as (_ & Hf & _ & Hd). destruct H' as (_ & Hf' & _ & Hd').
  rewrite Hf in Hf'. injection Hf' as <-.
  rewrite Hd in Hd'. injection Hd' as <-.
  exists written. split; [apply lookup_insert_eq|]. split; [exact He|].
  split; [apply patched_no_cr|]. split.
  - apply (encode_no_cr _ _ He), patched_no_cr.
  - cbn [snd world_after files].
    rewrite lookup_insert_ne
      by (intros E; by apply (target_ne_project w)).
    apply lookup_insert_eq.
Qed.

Lemma run_rewrites_line_endings_witness :
  let w := world_of cr_manifest distinct_draws in
  exists written,
    files (add_files_to_xcode_project w).2 !! project_file = Some written
    /\ Utf8.encode
         (patched (file_id w) (build_id w) (universal_newlines cr_manifest))
       = Some written
    /\ Forall (fun c => c <> 13)
         (patched (file_id w) (build_id w) (universal_newlines cr_manifest))
    /\ Forall (fun b => b <> 13) written
    /\ files (add_files_to_xcode_project w).2 !! backup_target w
       = Some cr_manifest.
Proof.
  apply (run_rewrites_line_endings (world_of cr_manifest distinct_draws)
           cr_manifest cr_manifest);
    [by repeat split|vm_compute; reflexivity].
Defined.

(** The manifest with the line endings of other systems, before and
    after a run in which no pattern matches. *)
Example line_endings_rewritten :
  files (world_of cr_manifest distinct_draws) !! project_file
  = Some (lit "// !$*UTF8*$!" ++ [13; 10] ++ lit "{" ++ [13] ++ lit "}\n")
  /\ files (add_files_to_xcode_project
              (world_of cr_manifest distinct_draws)).2 !! project_file
     = Some (lit "// !$*UTF8*$!\n{\n}\n").
Proof. split; vm_compute; reflexivity. Qed.

(** ** [rstrip], characterised *)

Lemma rstrip_blank ws : forallb Str.isspace ws = true -> Str.rstrip ws = [].
Proof.
  induction ws as [|c ws IH]; [done|]. cbn [forallb Str.rstrip].
  intros [Hc Hws]%andb_prop. by rewrite (IH Hws), Hc.
Qed.

Lemma rstrip_app_blank s ws :
  forallb Str.isspace ws = true -> Str.rstrip (s ++ ws) = Str.rstrip s.
Proof.
  induction ws as [|c ws IH] using rev_ind; intros Hws.
  - by rewrite app_nil_r.
  - rewrite forallb_app in Hws. apply andb_prop in Hws as [Hws Hc].
    cbn in Hc. rewrite andb_true_r in Hc.
    by rewrite app_assoc, rstrip_app_space, IH.
Qed.

Lemma rstrip_last s :
  match last (Str.rstrip s) with
  | Some c => Str.isspace c = false
  | None => True
  end.
Proof.
  induction s as [|c s IH]; [done|]. cbn [Str.rstrip].
  destruct (Str.rstrip s) as [|x r] eqn:E.
  - by destruct (Str.isspace c) eqn:Hc.
  - by rewrite last_cons_cons.
Qed.

(** X9. [s.rstrip()] is the one prefix of [s] that does not end in
    whitespace and is followed by whitespace only. *)
Theorem rstrip_characterised (s r : list N) :
  Str.rstrip s = r <->
  (exists ws, s = r ++ ws /\ forallb Str.isspace ws = true)
  /\ match last r with
     | Some c => Str.isspace c = false
     | None => True
     end.
Proof.
  split.
  - intros <-. split; [apply rstrip_prefix|apply rstrip_last].
  - intros [(ws & -> & Hws) Hr]. rewrite rstrip_app_blank by done.
    destruct r as [|x r] using rev_ind; [done|].
    rewrite last_snoc in Hr. by apply rstrip_app_nonspace.
Qed.

(** ** A patched section body is in normal form *)

Lemma concat_imap_end {A} (e : list N) (l : list A) :
  l <> [] ->
  forall f : nat -> A -> list N,
    (forall k x, exists y, f k x = y ++ e) ->
    exists y, concat (imap f l) = y ++ e.
Proof.
  intros Hl. induction l as [|x [|x' l] IH]; intros f Hf; [done| |].
  - destruct (Hf 0%nat x) as (y & Hy). exists y.
    cbn [imap concat]. by rewrite app_nil_r.
  - destruct (IH ltac:(done) (f ∘ S)) as (y & Hy).
    { intros k z. apply Hf. }
    exists (f 0%nat x ++ y).
    change (imap f (x :: x' :: l)) with (f 0%nat x :: imap (f ∘ S) (x' :: l)).
    cbn [concat]. by rewrite Hy, app_assoc.
Qed.

Lemma build_block_end F B : exists y, build_block F B = y ++ [59] ++ [NL].
Proof.
  apply concat_imap_end; [done|]. intros k x. unfold build_file_entry.
  replace (lit " */; };\n") with (lit " */; }" ++ [59] ++ [NL]) by reflexivity.
  eexists. rewrite !app_assoc. reflexivity.
Qed.

Lemma file_block_end F : exists y, file_block F = y ++ [59] ++ [NL].
Proof.
  apply concat_imap_end; [done|]. intros k x. unfold file_ref_entry.
  replace (lit "; };\n") with (lit "; }" ++ [59] ++ [NL]) by reflexivity.
  eexists. rewrite !app_assoc. reflexivity.
Qed.

Lemma extend_section_normal block old y :
  block = y ++ [59] ++ [NL] ->
  Str.rstrip (extend_section block old) ++ [NL] = extend_section block old.
Proof.
  intros ->. unfold extend_section.
  replace (Str.rstrip old ++ [NL] ++ y ++ [59] ++ [NL])
    with (((Str.rstrip old ++ [NL] ++ y) ++ [59]) ++ [NL])
    by (by rewrite <- !app_assoc).
  by rewrite rstrip_app_space, rstrip_app_nonspace.
Qed.

(** X10. The body a record section gets from an update ends in one
    newline after a semicolon: extending it again, as a later run would,
    appends the new block and changes nothing of what is there. *)
Theorem extended_section_is_extended_by_appending
    (F B : nat -> list N) (block old : list N) :
  extend_section block (extend_section (build_block F B) old)
    = extend_section (build_block F B) old ++ block
  /\ extend_section block (extend_section (file_block F) old)
     = extend_section (file_block F) old ++ block.
Proof.
  destruct (build_block_end F B) as (y & Hy).
  destruct (file_block_end F) as (z & Hz).
  split.
  - unfold extend_section at 1.
    rewrite <- (extend_section_normal _ old y Hy) at 2.
    by rewrite <- !app_assoc.
  - unfold extend_section at 1.
    rewrite <- (extend_section_normal _ old z Hz) at 2.
    by rewrite <- !app_assoc.
Qed.

(** ** The matcher finds whatever the pattern describes *)

Section ReComplete.
Context {R : Type}.
Implicit Types (k : list N -> option R) (s w : list N).

Lemma star_greedy_complete set k w s' :
  forallb set w = true -> is_Some (k s') ->
  is_Some (Re.star_greedy set k (w ++ s')).
Proof.
  intros Hw Hk. induction w as [|c w IH].
  - cbn [app]. destruct s' as [|c s'']; [done|]. cbn [Re.star_greedy].
    destruct (set c); [|done].
    by destruct (Re.star_greedy set k s'').
  - cbn [forallb] in Hw. apply andb_prop in Hw as [Hc Hw].
    cbn [app Re.star_greedy]. rewrite Hc.
    destruct (IH Hw) as [r ->]. done.
Qed.

Lemma star_lazy_complete set k w s' :
  forallb set w = true -> is_Some (k s') ->
  is_Some (Re.star_lazy set k (w ++ s')).
Proof.
  intros Hw Hk. induction w as [|c w IH].
  - cbn [app]. destruct Hk as [r Hr]. destruct s'; cbn [Re.star_lazy]; by rewrite Hr.
  - cbn [forallb] in Hw. apply andb_prop in Hw as [Hc Hw].
    cbn [app Re.star_lazy]. rewrite Hc.
    by destruct (k (c :: w ++ s')); [|apply IH].
Qed.

Lemma at_least_complete set min (rest : list N -> option R) w s' :
  length w = min -> forallb set w = true -> is_Some (rest s') ->
  is_Some (Re.at_least set min rest (w ++ s')).
Proof.
  intros <-. induction w as [|c w IH]; intros Hw Hr; [done|].
  cbn [forallb] in Hw. apply andb_prop in Hw as [Hc Hw].
  cbn [length app Re.at_least]. rewrite Hc. by apply IH.
Qed.

Lemma run_complete r w g g' :
  derives r w g g' ->
  forall s' (k : Re.cont R),
    is_Some (k s' g') -> is_Some (Re.run r (w ++ s') g k).
Proof.
  induction 1 as [l g|set min greedy w g Hw Hmin
                  |r1 r2 w1 w2 g g1 g2 _ IH1 _ IH2|r w g g1 _ IH];
    intros s' k Hk; cbn [Re.run].
  - by rewrite startswith_app, drop_app_length.
  - rewrite <- (take_drop min w), <- app_assoc.
    apply at_least_complete.
    + rewrite length_take. lia.
    + rewrite <- (take_drop min w), forallb_app in Hw.
      by apply andb_prop in Hw as [? _].
    + rewrite <- (take_drop min w), forallb_app in Hw.
      apply andb_prop in Hw as [_ Hw].
      destruct greedy; [by apply star_greedy_complete|by apply star_lazy_complete].
  - rewrite <- app_assoc. apply IH1, IH2, Hk.
  - apply IH. rewrite length_app.
    replace (length w + length s' - length s')%nat with (length w) by lia.
    by rewrite take_app_length.
Qed.
End ReComplete.

Lemma match_at_complete r pos w b g :
  derives r w None g -> is_Some (Re.match_at r pos (w ++ b)).
Proof. intros Hd. unfold Re.match_at. by apply (run_complete r w None g Hd). Qed.

Lemma search_from_complete r a w b g :
  derives r w None g ->
  forall pos, is_Some (Re.search_from r pos (a ++ w ++ b)).
Proof.
  intros Hd. induction a as [|c a IH]; intros pos.
  - cbn [app]. destruct (match_at_complete r pos w b g Hd) as [m Hm].
    destruct (w ++ b); cbn [Re.search_from]; by rewrite Hm.
  - cbn [app Re.search_from].
    by destruct (Re.match_at r pos (c :: a ++ w ++ b)); [|apply IH].
Qed.

(** X11. [re.search] finds a match exactly when some part of the text
    is in the language of the pattern: the backtracking of the matcher
    loses no match. *)
Theorem search_matches_iff_derivable (r : Re.re) (content : list N) :
  is_Some (Re.search r content) <->
  exists a w b g, content = a ++ w ++ b /\ derives r w None g.
Proof.
  split.
  - intros [m Hm]. apply search_from_sound in Hm as (a & w & b & g & E & Hd & _).
    by exists a, w, b, g.
  - intros (a & w & b & g & -> & Hd). by apply (search_from_complete r a w b g).
Qed.

(** ** Which text a section pattern captures *)

Lemma find_first_start p s :
  Str.startswith p s = true -> find_first p s = Some 0%nat.
Proof. intros H. unfold find_first. destruct s; cbn [find_all]; by rewrite H. Qed.

Lemma find_first_nil p : find_first p [] = if Str.startswith p [] then Some 0%nat else None.
Proof. unfold find_first. cbn [find_all]. by destruct (Str.startswith p []). Qed.

Lemma find_first_Some p s j :
  find_first p s = Some j ->
  (j <= length s)%nat /\ Str.startswith p (drop j s) = true.
Proof.
  unfold find_first. intros H.
  apply (find_all_elem p 0 s j). destruct (find_all p 0 s) as [|i l]; [done|].
  injection H as ->. apply list_elem_of_here.
Qed.

Lemma find_first_None p s : find_first p s = None <-> absent p s.
Proof. unfold find_first, absent. by destruct (find_all p 0 s). Qed.

Lemma star_lazy_any_find {R} (E : list N) (K : list N -> R) t :
  Re.star_lazy Re.any
    (fun s' => if Str.startswith E s' then Some (K s') else None) t
  = (fun j => K (drop j t)) <$> find_first E t.
Proof.
  induction t as [|c t IH].
  - cbn [Re.star_lazy]. rewrite find_first_nil.
    by destruct (Str.startswith E []).
  - cbn [Re.star_lazy]. rewrite find_first_cons.
    destruct (Str.startswith E (c :: t)); [done|].
    cbn [Re.any]. rewrite IH. by destruct (find_first E t).
Qed.

Lemma match_at_section B E pos s :
  Re.match_at
    (Re.Cat (Re.Chars B)
       (Re.Cat (Re.Group (Re.Rep Re.any 0 false)) (Re.Chars E))) pos s
  = if Str.startswith B s
    then (fun j =>
            Re.Match pos
              (pos + (length s
                      - length (drop (length E) (drop j (drop (length B) s)))))
              (Some (take j (drop (length B) s))))
         <$> find_first E (drop (length B) s)
    else None.
Proof.
  unfold Re.match_at. cbn [Re.run Re.at_least].
  destruct (Str.startswith B s); [|done].
  set (t := drop (length B) s).
  rewrite (star_lazy_any_find E
             (fun s' => Re.Match pos (pos + (length s - length (drop (length E) s')))
                          (Some (take (length t - length s') t)))).
  destruct (find_first E t) as [j|] eqn:Hj; [|done].
  cbn [fmap option_fmap option_map]. do 3 f_equal.
  apply find_first_Some in Hj as [Hj _]. rewrite length_drop.
  f_equal. lia.
Qed.

Lemma search_from_section B E s : forall pos,
  Re.search_from
    (Re.Cat (Re.Chars B)
       (Re.Cat (Re.Group (Re.Rep Re.any 0 false)) (Re.Chars E))) pos s
    ≫= Re.m_group1
  = between B E s.
Proof.
  induction s as [|c s IH]; intros pos.
  - cbn [Re.search_from]. rewrite match_at_section. unfold between.
    rewrite find_first_nil. destruct (Str.startswith B []); [|done].
    cbn [mbind option_bind]. rewrite !drop_nil, find_first_nil.
    destruct (Str.startswith E []); reflexivity.
  - cbn [Re.search_from]. rewrite match_at_section. unfold between.
    rewrite find_first_cons.
    destruct (Str.startswith B (c :: s)) eqn:HB.
    + cbn [mbind option_bind]. rewrite Nat.add_0_l.
      destruct (find_first E (drop (length B) (c :: s))) as [j|] eqn:Hj; [done|].
      cbn [fmap option_fmap option_map]. rewrite IH. unfold between.
      destruct (find_first B s) as [i|]; [|done]. cbn [mbind option_bind].
      replace (drop (i + length B) s)
        with (drop (S i) (drop (length B) (c :: s))).
      { apply find_first_None in Hj.
        apply (absent_drop _ _ (S i)), find_first_None in Hj. by rewrite Hj. }
      rewrite drop_drop. replace (length B + S i)%nat with (S (i + length B)) by lia.
      done.
    + rewrite IH. unfold between.
      destruct (find_first B s) as [i|]; [|done]. done.
Qed.

(** X12. A section pattern captures the text between the first begin
    marker of the manifest and the first end marker after it; it does
    not match exactly when the manifest has no begin marker, or no end
    marker after the first begin marker. *)
Theorem section_capture_is_first_to_first (x content : list N) :
  captured (section_pattern x) content
  = between (begin_marker x) (end_marker x) content.
Proof. apply search_from_section. Qed.

(** ** Which text a list pattern captures *)

Lemma star_greedy_longest {R} set (k : list N -> option R) s x :
  Re.star_greedy set k s = Some x ->
  exists w s',
    s = w ++ s' /\ forallb set w = true /\ k s' = Some x
    /\ forall w' s'', s = w' ++ s'' -> forallb set w' = true ->
         (length w < length w')%nat -> k s'' = None.
Proof.
  revert x. induction s as [|c s IH]; intros x; cbn [Re.star_greedy].
  - intros Hk. exists [], []. repeat split; [done|].
    intros w' s'' E _ Hl. symmetry in E. apply app_eq_nil in E as [-> _].
    cbn in Hl. lia.
  - destruct (set c) eqn:Hc.
    + destruct (Re.star_greedy set k s) as [r|] eqn:Hs.
      * intros [= ->]. destruct (IH x eq_refl) as (w & s' & -> & Hw & Hk & Hmax).
        exists (c :: w), s'. repeat split; [by cbn; rewrite Hc|done|].
        intros [|c' w'] s'' E Hw' Hl; [cbn in Hl; lia|].
        injection E as <- E. cbn [forallb] in Hw'.
        apply andb_prop in Hw' as [_ Hw']. cbn [length] in Hl.
        apply (Hmax w' s'' E Hw'). lia.
      * intros Hk. exists [], (c :: s). repeat split; [done|].
        intros [|c' w'] s'' E Hw' Hl; [cbn in Hl; lia|].
        injection E as <- E. cbn [forallb] in Hw'.
        apply andb_prop in Hw' as [_ Hw'].
        destruct (k s'') as [r|] eqn:Hr; [|done].
        destruct (star_greedy_complete set k w' s'' Hw') as [r' Hr'];
          [by rewrite Hr|].
        rewrite <- E in Hr'. congruence.
    + intros Hk. exists [], (c :: s). repeat split; [done|].
      intros [|c' w'] s'' E Hw' Hl; [cbn in Hl; lia|].
      injection E as <- E. cbn [forallb] in Hw'. rewrite Hc in Hw'. done.
Qed.

Lemma match_at_pos r p p' s :
  Re.match_at r p s = None -> Re.match_at r p' s = None.
Proof.
  intros Hn. destruct (Re.match_at r p' s) as [m|] eqn:Hm; [|done].
  apply match_at_sound in Hm as (w & s' & g & -> & Hd & _).
  destruct (match_at_complete r p w s' g Hd) as [m' Hm']. congruence.
Qed.

Lemma search_from_leftmost r s : forall pos m,
  Re.search_from r pos s = Some m ->
  exists a s',
    s = a ++ s' /\ Re.match_at r (pos + length a) s' = Some m
    /\ forall a' s'' p, s = a' ++ s'' -> (length a' < length a)%nat ->
         Re.match_at r p s'' = None.
Proof.
  induction s as [|c s IH]; intros pos m; cbn [Re.search_from].
  - destruct (Re.match_at r pos []) as [m'|] eqn:Hm; [|done].
    intros [= ->]. exists [], []. rewrite Nat.add_0_r. repeat split; [done|].
    intros a' s'' p _ Hl. cbn in Hl. lia.
  - destruct (Re.match_at r pos (c :: s)) as [m'|] eqn:Hm.
    + intros [= ->]. exists [], (c :: s). rewrite Nat.add_0_r.
      repeat split; [done|]. intros a' s'' p _ Hl. cbn in Hl. lia.
    + intros Hs. destruct (IH _ _ Hs) as (a & s' & -> & Hm' & Hleft).
      exists (c :: a), s'. cbn [length].
      replace (pos + S (length a))%nat with (S pos + length a)%nat by lia.
      repeat split; [done|].
      intros [|c' a'] s'' p E Hl.
      * cbn in E. subst s''. by apply (match_at_pos r pos).
      * injection E as <- E. cbn [length] in Hl. apply (Hleft a' s'' p E). lia.
Qed.

Lemma free_of_not_char c w : free_of c w = forallb (Re.not_char c) w.
Proof. reflexivity. Qed.

Lemma list_match_at_greedy H K pos s m :
  K <> [] ->
  Re.match_at
    (Re.Group
       (Re.Cat (Re.Chars H)
          (Re.Cat (Re.Rep (Re.not_char 125) 1 true)
             (Re.Cat (Re.Chars K) (Re.Rep (Re.not_char 41) 0 true)))))
    pos s = Some m ->
  exists w1 w2 post,
    s = (H ++ w1 ++ K ++ w2) ++ post
    /\ Re.m_group1 m = Some (H ++ w1 ++ K ++ w2)
    /\ w1 <> [] /\ free_of 125 w1 = true /\ free_of 41 w2 = true
    /\ (post = [] \/ exists t, post = 41 :: t)
    /\ forall u v, w2 ++ post = u ++ K ++ v ->
         free_of 125 (w1 ++ K ++ u) = false.
Proof.
  intros HK. unfold Re.match_at. cbn [Re.run].
  destruct (Str.startswith H s) eqn:HH; [|done].
  apply startswith_inv in HH. set (t := drop (length H) s) in *.
  intros Hrun.
  apply at_least_sound in Hrun as (wa & t1 & Ht & Hwa & Hla & Hrun).
  apply star_greedy_longest in Hrun as (wb & s' & -> & Hwb & Hk & Hmax).
  cbn [Re.at_least] in Hk, Hmax.
  destruct (Str.startswith K s') eqn:HKs; [|done].
  apply startswith_inv in HKs. set (t2 := drop (length K) s') in *.
  destruct (star_greedy_total (R := Re.match_object) (Re.not_char 41)
              (fun s'0 =>
                 Some (Re.Match pos (pos + (length s - length s'0))
                         (Some (take (length s - length s'0) s)))) t2)
    as (w2 & post & Ht2 & Hw2 & Hpost & Heq); [by eexists|].
  rewrite Heq in Hk. injection Hk as <-.
  assert (s = (H ++ (wa ++ wb) ++ K ++ w2) ++ post) as Hs.
  { rewrite HH, Ht, HKs, Ht2. by rewrite <- !app_assoc. }
  exists (wa ++ wb), w2, post. split; [done|]. split.
  { cbn [Re.m_group1]. f_equal. rewrite Hs at 2. rewrite Hs at 1.
    rewrite length_app.
    replace (length (H ++ (wa ++ wb) ++ K ++ w2) + length post - length post)%nat
      with (length (H ++ (wa ++ wb) ++ K ++ w2)) by lia.
    by rewrite take_app_length. }
  split. { destruct wa; [done|]. done. }
  split. { rewrite free_of_not_char, forallb_app. by rewrite Hwa, Hwb. }
  split; [by rewrite free_of_not_char|]. split.
  { destruct post as [|c post]; [by left|right]. exists post. f_equal.
    unfold Re.not_char in Hpost. apply negb_false_iff, N.eqb_eq in Hpost. done. }
  intros u v E. destruct (free_of 125 ((wa ++ wb) ++ K ++ u)) eqn:Hfree; [|done].
  exfalso. rewrite free_of_not_char, <- app_assoc, !forallb_app in Hfree.
  apply andb_prop in Hfree as [_ Hfree]. rewrite <- !forallb_app in Hfree.
  specialize (Hmax (wb ++ K ++ u) (K ++ v)).
  rewrite HKs, Ht2, E in Hmax.
  rewrite <- !app_assoc in Hmax. specialize (Hmax eq_refl).
  specialize (Hmax Hfree).
  rewrite !length_app in Hmax.
  assert (length K <> 0%nat) by (destruct K; done).
  specialize (Hmax ltac:(lia)).
  rewrite startswith_app, drop_app_length in Hmax.
  destruct (star_greedy_complete (R := Re.match_object) (Re.not_char 41)
              (fun s'0 =>
                 Some (Re.Match pos (pos + (length s - length s'0))
                         (Some (take (length s - length s'0) s)))) [] v eq_refl)
    as [r Hr]; [by eexists|].
  cbn [app] in Hr. congruence.
Qed.

Lemma list_key_nonempty l : list_key l <> [].
Proof. unfold list_key. by destruct l. Qed.

Lemma list_derives H K w1 :
  w1 <> [] -> free_of 125 w1 = true ->
  derives
    (Re.Group
       (Re.Cat (Re.Chars H)
          (Re.Cat (Re.Rep (Re.not_char 125) 1 true)
             (Re.Cat (Re.Chars K) (Re.Rep (Re.not_char 41) 0 true)))))
    (H ++ w1 ++ K ++ []) None (Some (H ++ w1 ++ K ++ [])).
Proof.
  intros Hne Hfree. apply (derives_group _ _ _ None).
  apply (derives_cat _ _ _ _ _ None); [constructor|].
  apply (derives_cat _ _ _ _ _ None).
  - constructor; [done|]. destruct w1; [done|]. cbn. lia.
  - apply (derives_cat _ _ _ _ _ None); [constructor|].
    constructor; [done|]. cbn. lia.
Qed.

(** X13. The text a list pattern captures: it starts with the leftmost
    head that is followed, after one or more characters other than the
    closing brace, by the key; it reaches over the last key that comes
    before any closing brace, and from there to the first closing
    parenthesis or the end of the text. *)
Theorem list_capture_characterised (x l content old : list N) :
  captured (list_pattern x l) content = Some old ->
  exists pre w1 w2 post,
    content = pre ++ old ++ post
    /\ old = list_head x ++ w1 ++ list_key l ++ w2
    /\ w1 <> [] /\ free_of 125 w1 = true /\ free_of 41 w2 = true
    /\ (post = [] \/ exists t, post = 41 :: t)
    /\ (forall u v, w2 ++ post = u ++ list_key l ++ v ->
          free_of 125 (w1 ++ list_key l ++ u) = false)
    /\ (forall pre' w1' rest,
          content = pre' ++ list_head x ++ w1' ++ list_key l ++ rest ->
          w1' <> [] -> free_of 125 w1' = true ->
          (length pre <= length pre')%nat).
Proof.
  intros (m & Hm & Hg)%captured_inv.
  apply search_from_leftmost in Hm as (pre & s' & -> & Hm & Hleft).
  apply list_match_at_greedy in Hm
    as (w1 & w2 & post & -> & Hg' & Hne & Hw1 & Hw2 & Hpost & Hlast);
    [|apply list_key_nonempty].
  rewrite Hg in Hg'. injection Hg' as ->.
  exists pre, w1, w2, post. repeat split; try done.
  intros pre' w1' rest E Hne' Hfree'.
  destruct (decide (length pre <= length pre')%nat) as [|Hlt]; [done|].
  exfalso.
  pose proof (Hleft pre' _ 0%nat E ltac:(lia)) as Hnone.
  destruct (match_at_complete _ 0%nat _ rest _
              (list_derives (list_head x) (list_key l) w1' Hne' Hfree'))
    as [m' Hm'].
  rewrite <- !app_assoc in Hm'. cbn [app] in Hm'.
  unfold list_pattern in Hnone. fold (list_head x) (list_key l) in Hnone.
  congruence.
Qed.

Lemma list_capture_witness :
  exists pre w1 w2 post,
    lit "/* G */ = {children = (children = (x, y) z"
      = pre ++ lit "/* G */ = {children = (children = (x, y" ++ post
    /\ lit "/* G */ = {children = (children = (x, y"
       = list_head (lit "G") ++ w1 ++ list_key (lit "children") ++ w2
    /\ w1 <> [] /\ free_of 125 w1 = true /\ free_of 41 w2 = true
    /\ (post = [] \/ exists t, post = 41 :: t)
    /\ (forall u v, w2 ++ post = u ++ list_key (lit "children") ++ v ->
          free_of 125 (w1 ++ list_key (lit "children") ++ u) = false)
    /\ (forall pre' w1' rest,
          lit "/* G */ = {children = (children = (x, y) z"
            = pre' ++ list_head (lit "G") ++ w1' ++ list_key (lit "children") ++ rest ->
          w1' <> [] -> free_of 125 w1' = true ->
          (length pre <= length pre')%nat).
Proof.
  apply (list_capture_characterised (lit "G") (lit "children")
           (lit "/* G */ = {children = (children = (x, y) z")
           (lit "/* G */ = {children = (children = (x, y")).
  vm_compute. reflexivity.
Defined.

(** X14. A list pattern matches, and the update of the list takes
    place, exactly when the manifest holds the head followed, after one
    or more characters other than the closing brace, by the key. *)
Theorem list_found_iff (x l content : list N) :
  is_Some (captured (list_pattern x l) content) <->
  exists pre w1 rest,
    content = pre ++ list_head x ++ w1 ++ list_key l ++ rest
    /\ w1 <> [] /\ free_of 125 w1 = true.
Proof.
  split.
  - intros [old Hc]. apply captured_inv in Hc as (m & Hm & _).
    apply list_pattern_sound in Hm as (pre & w1 & w2 & post & -> & _ & Hw1 & Hne & _).
    exists pre, w1, (w2 ++ post). by rewrite <- !app_assoc.
  - intros (pre & w1 & rest & -> & Hne & Hfree).
    destruct (search_from_complete _ pre _ rest _
                (list_derives (list_head x) (list_key l) w1 Hne Hfree) 0%nat)
      as [m Hm].
    rewrite <- !app_assoc in Hm. cbn [app] in Hm.
    assert (Re.search (list_pattern x l)
              (pre ++ list_head x ++ w1 ++ list_key l ++ rest) = Some m)
      as Hs by exact Hm.
    destruct (list_pattern_sound x l _ m Hs) as (_ & w1' & w2' & _ & _ & Hg & _).
    unfold captured. rewrite Hs. cbn [mbind option_bind]. by rewrite Hg.
Qed.

(** ** The digits of an identifier that are not random *)

Section UuidDigits.
Import Uuid.

Lemma small_bits_inj x y :
  x < 16 -> y < 16 ->
  (forall j, j < 4 -> N.testbit x j = N.testbit y j) -> x = y.
Proof.
  intros Hx Hy H. apply N.bits_inj. intros j.
  destruct (N.lt_ge_cases j 4) as [Hj|Hj]; [by apply H|].
  assert (forall z, z < 16 -> N.log2 z < 4) as Hlog.
  { intros z Hz. destruct (N.eq_dec z 0) as [->|Hne]; [done|].
    apply (N.log2_lt_pow2 z 4); lia. }
  rewrite !N.bits_above_log2; [done| |].
  - specialize (Hlog y Hy). lia.
  - specialize (Hlog x Hx). lia.
Qed.

Lemma uuid4_testbit r i :
  N.testbit (uuid4 r) i =
    (N.testbit r i && negb (N.testbit (N.shiftl 0xc000 48) i)
     || N.testbit (N.shiftl 0x8000 48) i)
    && negb (N.testbit (N.shiftl 0xf000 64) i)
    || N.testbit (N.shiftl 4 76) i.
Proof.
  unfold uuid4. cbv zeta.
  by rewrite N.lor_spec, N.ldiff_spec, N.lor_spec, N.ldiff_spec.
Qed.

Lemma uuid4_version r : nibble (uuid4 r) 19 = 4.
Proof.
  apply small_bits_inj; [apply nibble_lt|done|]. intros j Hj.
  rewrite nibble_testbit, uuid4_testbit by done.
  assert (In j (map N.of_nat (seq 0 4))) as Hin.
  { apply in_map_iff. exists (N.to_nat j). split; [lia|]. apply in_seq. lia. }
  simpl in Hin.
  destruct Hin as [<-|[<-|[<-|[<-|[]]]]];
    match goal with
    | |- context [N.testbit r ?i] => destruct (N.testbit r i)
    end; reflexivity.
Qed.

Lemma uuid4_variant r :
  In (nibble (uuid4 r) 15) [8; 9; 10; 11].
Proof.
  pose proof (nibble_lt (uuid4 r) 15) as Hlt.
  assert (N.testbit (nibble (uuid4 r) 15) 3 = true) as H3.
  { rewrite nibble_testbit, uuid4_testbit by done.
    match goal with
    | |- context [N.testbit r ?i] => destruct (N.testbit r i)
    end; reflexivity. }
  assert (N.testbit (nibble (uuid4 r) 15) 2 = false) as H2.
  { rewrite nibble_testbit, uuid4_testbit by done.
    match goal with
    | |- context [N.testbit r ?i] => destruct (N.testbit r i)
    end; reflexivity. }
  revert Hlt H3 H2. generalize (nibble (uuid4 r) 15). intros d Hd.
  assert (In d (map N.of_nat (seq 0 16))) as Hin.
  { apply in_map_iff. exists (N.to_nat d). split; [lia|]. apply in_seq. lia. }
  simpl in Hin. intuition (subst; first [discriminate | simpl; tauto]).
Qed.

Lemma new_id_lookup r i :
  r < 2 ^ 128 -> (i < 24)%nat ->
  new_id r !! i
  = Some (Str.upper_char (hex_digit (nibble (uuid4 r) (31 - i)))).
Proof.
  intros Hr Hi. unfold new_id.
  rewrite id_of_uuid_digits, hex_width_128 by by apply uuid4_log2, log2_lt_128.
  change (take 24 (reverse (seq 0 32))) with (reverse (seq 8 24)).
  change (map ?f ?l) with (f <$> l). rewrite list_lookup_fmap.
  rewrite reverse_lookup by (rewrite length_seq; lia).
  rewrite length_seq, lookup_seq_lt by lia.
  cbn [fmap option_fmap option_map]. do 4 f_equal. lia.
Qed.
End UuidDigits.

(** X15. Of the 24 digits of an identifier two are not random: the
    thirteenth is the version digit 4 of the UUID, and the seventeenth,
    which holds its variant bits, is 8, 9, A or B. *)
Theorem identifier_version_and_variant_digits (r : N) :
  r < 2 ^ 128 ->
  Uuid.new_id r !! 12%nat = Some 52
  /\ exists c, Uuid.new_id r !! 16%nat = Some c
       /\ In c (lit "89AB").
Proof.
  intros Hr. rewrite !new_id_lookup by (done || lia). split.
  - change (31 - 12)%nat with 19%nat. by rewrite uuid4_version.
  - eexists. split; [done|]. change (31 - 16)%nat with 15%nat.
    pose proof (uuid4_variant r) as Hv.
    revert Hv. generalize (Uuid.nibble (Uuid.uuid4 r) 15). intros d Hd.
    simpl in Hd. intuition (subst; simpl; tauto).
Qed.

Lemma identifier_digits_witness :
  Uuid.new_id (2 ^ 128 - 1) !! 12%nat = Some 52
  /\ exists c, Uuid.new_id (2 ^ 128 - 1) !! 16%nat = Some c
       /\ In c (lit "89AB").
Proof.
  apply (identifier_version_and_variant_digits (2 ^ 128 - 1)). reflexivity.
Defined.
